(** * Budget variance analyzer: a shallow embedding of
      [cost_analytics/budget_variance_analyzer.py]

    The analysed code is [BudgetVarianceAnalyzer.__init__] and
    [BudgetVarianceAnalyzer.calculate_variances] together with its nested
    [categorize_variance].  Numeric columns are pandas [float64] columns, so
    numbers are IEEE-754 binary64 values, modelled with the executable
    specification of the Standard Library ([SpecFloat], precision 53,
    [emax] 1024).  A frame with one [int64] input column behaves the same
    as long as its values stay below 2^53, since numpy promotes it to
    [float64] in the subtraction and the divisions.  When both input
    columns are [int64] the subtraction is carried out in [int64] (exact,
    wrapping at 2^63): the model has no such column, and what is proved
    here is about [float64] frames.  A [DataFrame] is a mutable object: it
    lives in a store and [calculate_variances] writes its new columns into
    the frame it was given.

    Of [BudgetVarianceAnalyzer.generate_sample_data] only the calendar is
    embedded: the months its loop runs over, and the fiscal year and the
    quarter label it derives from a month.  As a whole the method is not
    well-formed Python (the [elif] at line 81 lacks its colon), so nothing
    is stated about its runs. *)

From Stdlib Require Import ZArith QArith Qabs Qround Qpower Bool List Lia Lqa.
From Stdlib Require Import Floats.SpecFloat.
From stdpp Require Import base option list strings gmap pretty.

Local Open Scope Z_scope.

(** ** binary64 arithmetic *)

Module Float64.

Definition prec : Z := 53.
Definition emax : Z := 1024.

Definition f64 : Type := spec_float.

Definition fsub (x y : f64) : f64 := SFsub prec emax x y.
Definition fmul (x y : f64) : f64 := SFmul prec emax x y.
Definition fdiv (x y : f64) : f64 := SFdiv prec emax x y.

(** [x <= y] and [x >= y]; both are false as soon as one side is NaN. *)
Definition fle (x y : f64) : bool := SFleb x y.
Definition fge (x y : f64) : bool := SFleb y x.
Definition flt (x y : f64) : bool := SFltb x y.

(** The binary64 value of an integer, with the sign [s] when it is zero. *)
Definition of_int (s : bool) (n : Z) : f64 := binary_normalize prec emax n 0 s.
Definition of_Z (n : Z) : f64 := of_int false n.

(** [a / b] for two integers, correctly rounded: the value a decimal
    literal such as [3.12] denotes when written as [312 / 100]. *)
Definition of_ratio (a b : Z) : f64 := fdiv (of_Z a) (of_Z b).

Definition pinf : f64 := S754_infinity false.
Definition nan : f64 := S754_nan.
Definition pzero : f64 := S754_zero false.

Definition is_nan (x : f64) : bool :=
  match x with S754_nan => true | _ => false end.
Definition is_inf (x : f64) : bool :=
  match x with S754_infinity _ => true | _ => false end.
Definition is_finite (x : f64) : bool :=
  match x with S754_zero _ | S754_finite _ _ _ => true | _ => false end.

(** The rational a finite binary64 denotes (0 for infinities and NaN,
    which callers exclude with [is_finite]). *)
Definition F2Q (x : f64) : Q :=
  match x with
  | S754_finite s m e =>
      let v := match e with
               | Zneg p => Z.pos m # Pos.pow 2 p
               | _ => inject_Z (Z.pos m * 2 ^ e)
               end in
      if s then Qopp v else v
  | _ => 0%Q
  end.

(** Integer division of [m] by [d > 0], to the nearest integer, ties to
    the even one. *)
Definition rne_div (m d : Z) : Z :=
  let q := m / d in
  let r := m mod d in
  match 2 * r ?= d with
  | Lt => q
  | Gt => q + 1
  | Eq => if Z.even q then q else q + 1
  end.

(** C [rint] under the default rounding mode (numpy's [np.rint]): the
    nearest integral value, ties to even, keeping the sign (also of a
    zero result); zeros, infinities and NaN are returned unchanged. *)
Definition rint (x : f64) : f64 :=
  match x with
  | S754_finite s m (Zneg p) =>
      of_int s (cond_Zopp s (rne_div (Z.pos m) (2 ^ Z.pos p)))
  | _ => x
  end.

(** [numpy.round(x, decimals)] for [decimals >= 0] on a float array:
    multiply by [10 ** decimals], [rint], divide by [10 ** decimals]. *)
Definition np_round (x : f64) (decimals : Z) : f64 :=
  let f := of_Z (10 ^ decimals) in
  fdiv (rint (fmul x f)) f.

End Float64.

Import Float64.

(** ** Python exceptions and the store of frames *)

(** The exceptions the analysed code can raise: a missing column or
    threshold key, and arithmetic on a column that is not numeric.  Float
    arithmetic itself never raises: numpy yields [inf] and [nan]. *)
Inductive exn : Type :=
| KeyError (key : string)
| TypeError.

Inductive result (A : Type) : Type :=
| Ok (a : A)
| Raise (e : exn).
Arguments Ok {A} a.
Arguments Raise {A} e.

#[global] Instance result_ret : MRet result := @Ok.
#[global] Instance result_bind : MBind result := fun A B f m =>
  match m with
  | Ok a => f a
  | Raise e => Raise e
  end.

(** A column of a frame: [float64], strings ([object]) or [bool]. *)
Inductive column : Type :=
| FloatCol (l : list f64)
| StrCol (l : list string)
| BoolCol (l : list bool).

(** A frame maps column names to columns. *)
Abbreviation DataFrame := (gmap string column).

(** Frames are objects: a variable holds a reference, the store holds the
    contents. *)
Definition loc : Type := nat.
Definition store : Type := loc → DataFrame.

Definition store_update (st : store) (l : loc) (f : DataFrame) : store :=
  fun l' => if decide (l' = l) then f else st l'.

(** Computations that read and write the store and may raise. *)
Definition M (A : Type) : Type := store → store * result A.

#[global] Instance M_ret : MRet M := fun A a st => (st, Ok a).
#[global] Instance M_bind : MBind M := fun A B f m st =>
  match m st with
  | (st', Ok a) => f a st'
  | (st', Raise e) => (st', Raise e)
  end.

Definition lift {A} (r : result A) : M A := fun st => (st, r).

(** [df[key]] *)
Definition getitem (df : loc) (key : string) : M column := fun st =>
  (st, match st df !! key with
       | Some c => Ok c
       | None => Raise (KeyError key)
       end).

(** [df[key] = col]: replaces or adds the column, in the frame itself. *)
Definition setitem (df : loc) (key : string) (col : column) : M unit := fun st =>
  (store_update st df (<[key := col]> (st df)), Ok tt).

(** ** Column operations *)

Definition bool_to_f64 (b : bool) : f64 := if b then of_Z 1 else pzero.

(** The float64 view numpy arithmetic takes of a column; strings have
    none.  [calculate_variances] also reads 'variance_pct' back through it,
    which it has just written as a float column. *)
Definition as_float (c : column) : result (list f64) :=
  match c with
  | FloatCol l => Ok l
  | BoolCol l => Ok (bool_to_f64 <$> l)
  | StrCol _ => Raise TypeError
  end.

(** [c1 - c2], element by element (numpy refuses [bool - bool]).  The
    numeric columns of the model are [float64]; the [int64] subtraction
    pandas performs on two integer columns is not modelled. *)
Definition col_sub (c1 c2 : column) : result (list f64) :=
  match c1, c2 with
  | BoolCol _, BoolCol _ => Raise TypeError
  | _, _ => l1 ← as_float c1; l2 ← as_float c2; Ok (zip_with fsub l1 l2)
  end.

(** [c1 / c2], true division element by element. *)
Definition col_div (c1 c2 : column) : result (list f64) :=
  l1 ← as_float c1; l2 ← as_float c2; Ok (zip_with fdiv l1 l2).

(** [s * k] for a float series and a Python int. *)
Definition series_mul (s : list f64) (k : Z) : list f64 :=
  (fun x => fmul x (of_Z k)) <$> s.

(** [s.round(decimals)] *)
Definition series_round (s : list f64) (decimals : Z) : list f64 :=
  (fun x => np_round x decimals) <$> s.

(** [s.apply(f)]: [f] on every element in order; the first exception
    propagates. *)
Fixpoint series_apply {A B} (f : A → result B) (s : list A) : result (list B) :=
  match s with
  | [] => Ok []
  | x :: s' => y ← f x; ys ← series_apply f s'; Ok (y :: ys)
  end.

(** [c.isin(values)] for a list of strings: only string cells can be
    members. *)
Definition col_isin (c : column) (values : list string) : list bool :=
  match c with
  | StrCol l => (fun s => bool_decide (s ∈ values)) <$> l
  | FloatCol l => (fun _ => false) <$> l
  | BoolCol l => (fun _ => false) <$> l
  end.

(** ** The analyzer *)

Record BudgetVarianceAnalyzer : Type := {
  variance_thresholds : gmap string f64;
  cost_centers : gmap string string
}.

(** [BudgetVarianceAnalyzer.__init__] *)
Definition init : BudgetVarianceAnalyzer := {|
  variance_thresholds :=
    <["significantly_over" := of_Z (-10)]>
      (<["significantly_under" := of_Z 25]>
         (<["slightly_over" := of_Z (-5)]>
            (<["slightly_under" := of_Z 15]> ∅)));
  cost_centers :=
    <["AIR_QUALITY" := "Air Quality Monitoring"]>
      (<["WATER_TESTING" := "Water Quality Testing"]>
         (<["WASTE_MGMT" := "Waste Management"]>
            (<["SUSTAINABILITY" := "Sustainability Programs"]>
               (<["COMPLIANCE" := "Environmental Compliance"]> ∅))))
|}.

(** [self.variance_thresholds[key]] *)
Definition threshold (self : BudgetVarianceAnalyzer) (key : string) : result f64 :=
  match variance_thresholds self !! key with
  | Some t => Ok t
  | None => Raise (KeyError key)
  end.

(** The nested [categorize_variance]; the labels are the source's, the
    second one with its spelling. *)
Definition categorize_variance (self : BudgetVarianceAnalyzer) (variance_pct : f64)
  : result string :=
  t1 ← threshold self "significantly_over";
  if fle variance_pct t1 then Ok "Significantly Overrun" else
  t2 ← threshold self "slightly_over";
  if fle variance_pct t2 then Ok "Slighty Overrun" else
  t3 ← threshold self "significantly_under";
  if fge variance_pct t3 then Ok "Significantly Underspending" else
  t4 ← threshold self "slightly_under";
  if fge variance_pct t4 then Ok "Slightly Underspending" else
  Ok "Within Target".

(** [BudgetVarianceAnalyzer.calculate_variances] *)
Definition calculate_variances (self : BudgetVarianceAnalyzer) (df : loc) : M loc :=
  actual ← getitem df "actual_spending";
  budget ← getitem df "monthly_budget";
  v ← lift (col_sub actual budget);
  setitem df "budget_variance" (FloatCol v);;
  bv ← getitem df "budget_variance";
  budget ← getitem df "monthly_budget";
  q ← lift (col_div bv budget);
  setitem df "variance_pct" (FloatCol (series_round (series_mul q 100) 2));;
  actual ← getitem df "actual_spending";
  budget ← getitem df "monthly_budget";
  q ← lift (col_div actual budget);
  setitem df "spending_rate" (FloatCol (series_round (series_mul q 100) 2));;
  vp ← getitem df "variance_pct";
  pcts ← lift (as_float vp);
  cats ← lift (series_apply (categorize_variance self) pcts);
  setitem df "variance_category" (StrCol cats);;
  vc ← getitem df "variance_category";
  setitem df "needs attention"
    (BoolCol (col_isin vc ["Significantly Overrun"; "Significantly Underspending"]));;
  mret df.

(** ** One record at a time *)

(** What [calculate_variances] computes for the row with the given
    [monthly_budget] and [actual_spending]: the five cells it writes. *)
Record VarianceResult : Type := {
  budget_variance : f64;
  variance_pct : f64;
  spending_rate : f64;
  variance_category : string;
  needs_attention : bool
}.

(** [(num / den * 100).round(2)] on one element. *)
Definition pct_of (num den : f64) : f64 :=
  np_round (fmul (fdiv num den) (of_Z 100)) 2.

(** The row [calculate_variances] writes for one record: the element-wise
    reading of its column operations ([rows_evaluate] relates the two). *)
Definition evaluate (self : BudgetVarianceAnalyzer) (budget actual : f64)
  : result VarianceResult :=
  let bv := fsub actual budget in
  let vp := pct_of bv budget in
  cat ← categorize_variance self vp;
  Ok {| budget_variance := bv;
        variance_pct := vp;
        spending_rate := pct_of actual budget;
        variance_category := cat;
        needs_attention :=
          bool_decide (cat ∈ ["Significantly Overrun"; "Significantly Underspending"]) |}.

(** The frame holding the given (budget, actual) records, in order. *)
Definition frame_of_records (rs : list (f64 * f64)) : DataFrame :=
  <["monthly_budget" := FloatCol (fst <$> rs)]>
    (<["actual_spending" := FloatCol (snd <$> rs)]> ∅).

(** The rows of results a frame holds under the five written columns. *)
Fixpoint zip_results (bv vp sr : list f64) (vc : list string) (na : list bool)
  : list VarianceResult :=
  match bv, vp, sr, vc, na with
  | b :: bv', p :: vp', r :: sr', c :: vc', a :: na' =>
      {| budget_variance := b; variance_pct := p; spending_rate := r;
         variance_category := c; needs_attention := a |}
        :: zip_results bv' vp' sr' vc' na'
  | _, _, _, _, _ => []
  end.

Definition results_of (f : DataFrame) : option (list VarianceResult) :=
  match f !! "budget_variance", f !! "variance_pct", f !! "spending_rate",
        f !! "variance_category", f !! "needs attention" with
  | Some (FloatCol bv), Some (FloatCol vp), Some (FloatCol sr),
    Some (StrCol vc), Some (BoolCol na) => Some (zip_results bv vp sr vc na)
  | _, _, _, _, _ => None
  end.

(** A store whose only populated frame, at reference 0, is [f]. *)
Definition store_of (f : DataFrame) : store :=
  fun l => if decide (l = 0%nat) then f else ∅.

(** The percentage column the code derives from two float series. *)
Definition pct_col (num den : list f64) : list f64 :=
  series_round (series_mul (zip_with fdiv num den) 100) 2.

Definition attention_labels : list string :=
  ["Significantly Overrun"; "Significantly Underspending"].

(** The column names [calculate_variances] assigns to. *)
Definition written_keys : list string :=
  ["budget_variance"; "variance_pct"; "spending_rate"; "variance_category";
   "needs attention"].

(** A run that ends in an exception. *)
Definition raises {A} (m : M A) (st : store) : Prop :=
  ∃ e, (m st).2 = Raise e.

(** The thresholds an analyzer holds, when all four keys are present. *)
Definition has_thresholds (self : BudgetVarianceAnalyzer)
    (sig_over sl_over sl_under sig_under : f64) : Prop :=
  variance_thresholds self !! "significantly_over" = Some sig_over
  ∧ variance_thresholds self !! "slightly_over" = Some sl_over
  ∧ variance_thresholds self !! "slightly_under" = Some sl_under
  ∧ variance_thresholds self !! "significantly_under" = Some sig_under.

(** The ordering the specification requires of a configuration. *)
Definition strictly_ordered (sig_over sl_over sl_under sig_under : f64) : Prop :=
  flt sig_over sl_over = true
  ∧ flt sl_over sl_under = true
  ∧ flt sl_under sig_under = true.

(** [calculate_variances] relates the store before and after by leaving
    every other frame, and every other column of its own frame, alone. *)
Definition only_writes (df : loc) (keys : list string) (st st' : store) : Prop :=
  (∀ l, l ≠ df → st' l = st l)
  ∧ (∀ k, k ∉ keys → st' df !! k = st df !! k).

(** A computation that, from any store, only writes those columns. *)
Definition preserves {A} (df : loc) (keys : list string) (m : M A) : Prop :=
  ∀ st, only_writes df keys st (m st).1.

(** A run on a fresh frame holding the given records: how the call ended
    and the rows the frame holds afterwards. *)
Definition run_records (self : BudgetVarianceAnalyzer) (records : list (f64 * f64))
  : result loc * option (list VarianceResult) :=
  let '(st', r) := calculate_variances self 0%nat (store_of (frame_of_records records)) in
  (r, results_of (st' 0%nat)).

(** ** The specification's reading of the percentages *)

(** The specification rounds the exact quotient times 100 half-up to two
    decimals.  [half_up_hundredths q] is that decimal, counted in
    hundredths (ties away from zero), and [decimal_pct] the binary64 value
    nearest to it. *)
Definition half_up_hundredths (q : Q) : Z :=
  let n := Qfloor (Qabs q * 100 + (1 # 2)) in
  if Qle_bool 0 q then n else - n.

Definition decimal_pct (num den : Q) : f64 :=
  of_ratio (half_up_hundredths (num / den * 100)) 100.

(** What [rint] does to [x]: [y] is [x] itself when [x] is already
    integral (or not finite); otherwise [y] is the binary64 value of an
    integer [n] at distance at most 1/2 from [x], the even one when [x] is
    half-way between two integers. *)
Definition rounded_half_even (x y : f64) : Prop :=
  match x with
  | S754_finite s m (Zneg p) =>
      ∃ n : Z,
        y = of_int s n
        ∧ (Qabs (inject_Z n - F2Q x) <= 1 # 2)%Q
        ∧ (Qabs (inject_Z n - F2Q x) == 1 # 2 → Z.even n = true)%Q
  | _ => y = x
  end.

(** The distance, in exact arithmetic on the binary64 values, between a
    row's [budget_variance] and [budget * (variance_pct / 100)]. *)
Definition roundtrip_gap (budget : f64) (r : VarianceResult) : Q :=
  Qabs (F2Q (budget_variance r) - F2Q budget * (F2Q (variance_pct r) / 100)).

(** ** Reading binary64 rounding in exact arithmetic *)

(** [2 ^ e] as a rational, for any integer exponent. *)
Definition pow2 (e : Z) : Q := Qpower 2 e.

(** Where a real [x] lies relative to the integer [m] and [m + 1], as
    recorded by a rounding location of [SpecFloat]: on [m], below, at or
    above the half-way point. *)
Definition inbetween (m : Z) (l : location) (x : Q) : Prop :=
  match l with
  | loc_Exact => (x == inject_Z m)%Q
  | loc_Inexact Lt => (inject_Z m < x ∧ x < inject_Z m + (1 # 2))%Q
  | loc_Inexact Eq => (x == inject_Z m + (1 # 2))%Q
  | loc_Inexact Gt => (inject_Z m + (1 # 2) < x ∧ x < inject_Z m + 1)%Q
  end.

(** The exponent binary64 gives a number of magnitude [2 ^ e]. *)
Definition fexp64 (e : Z) : Z := fexp prec emax e.

(** The invariant between the two shifts of [binary_round_aux]: the
    mantissa sits at its format exponent, or is exact and fits. *)
Definition aligned (m e : Z) (l : location) : Prop :=
  fexp64 (Zdigits2 m + e) = e ∨ (l = loc_Exact ∧ fexp64 (Zdigits2 m + e) <= e).

Definition Qsign (s : bool) (v : Q) : Q := if s then (- v)%Q else v.

(** The rounding error a binary64 operation commits on a real of magnitude
    [v]: relative 2^-53 in the normal range, absolute 2^-1075 below it. *)
Definition rnd_err (v : Q) : Q := (pow2 (-53) * v + pow2 (-1075))%Q.

(** ** Signs of binary64 values *)

(** The zero with the sign bit set, [-0.0], and minus infinity. *)
Definition nzero : f64 := S754_zero true.
Definition ninf : f64 := S754_infinity true.

(** [x] is a zero, or a finite or infinite value with sign bit [s]. *)
Definition signed (s : bool) (x : f64) : Prop :=
  match x with
  | S754_zero _ => True
  | S754_finite s' _ _ => s' = s
  | S754_infinity s' => s' = s
  | S754_nan => False
  end.

(** ** The calendar of the sample data *)

(** A month of a [Timestamp] at the first day of a month: year and month
    number. *)
Definition month_start : Type := Z * Z.

Definition next_month (ym : month_start) : month_start :=
  if ym.2 =? 12 then (ym.1 + 1, 1) else (ym.1, ym.2 + 1).


(** [month.year + 1 if month.month >= 7 else month.year] *)
Definition fiscal_year_of (ym : month_start) : Z :=
  if 7 <=? ym.2 then ym.1 + 1 else ym.1.

(** The f-string of the 'quarter' entry. *)
Definition quarter_of (ym : month_start) : string :=
  if 7 <=? ym.2
  then "Q" +:+ pretty ((ym.2 - 7) `mod` 12 / 3 + 1)
  else "Q" +:+ pretty ((ym.2 + 5) `mod` 12 / 3 + 1).

(** * Properties *)

(** ** Order on binary64 values *)

Section FloatOrder.

Lemma SFcompare_antisym (x y : f64) :
  SFcompare y x = CompOpp <$> SFcompare x y.
Proof.
  destruct x as [sx|sx| |sx mx ex], y as [sy|sy| |sy my ey];
    try destruct sx; try destruct sy; try reflexivity.
  all: simpl; change (Pos.compare_cont Eq) with Pos.compare;
    rewrite (Z.compare_antisym ex ey), (Pos.compare_antisym mx my);
    destruct (ex ?= ey); simpl; try reflexivity; by rewrite ?CompOpp_involutive.
Qed.

Lemma SFcompare_refl (x : f64) : is_nan x = false → SFcompare x x = Some Eq.
Proof.
  destruct x as [s|s| |s m e]; try destruct s; simpl; try done.
  all: intros _; rewrite Z.compare_refl; fold (Pos.compare m m);
    by rewrite Pos.compare_refl.
Qed.

Lemma SFcompare_Lt_trans (x y z : f64) :
  SFcompare x y = Some Lt → SFcompare y z = Some Lt → SFcompare x z = Some Lt.
Proof.
  destruct x as [sx|sx| |sx mx ex], y as [sy|sy| |sy my ey],
           z as [sz|sz| |sz mz ez];
    try destruct sx; try destruct sy; try destruct sz; simpl; try done.
  all: change (Pos.compare_cont Eq) with Pos.compare.
  all: destruct (Z.compare_spec ex ey), (Z.compare_spec ey ez),
         (Z.compare_spec ex ez); try done; try lia.
  all: destruct (Pos.compare_spec mx my), (Pos.compare_spec my mz),
         (Pos.compare_spec mx mz); simpl; try done; try lia.
Qed.

Lemma flt_trans (x y z : f64) : flt x y = true → flt y z = true → flt x z = true.
Proof.
  unfold flt, SFltb. intros Hxy Hyz.
  destruct (SFcompare x y) as [[]|] eqn:Exy; try done.
  destruct (SFcompare y z) as [[]|] eqn:Eyz; try done.
  by rewrite (SFcompare_Lt_trans x y z).
Qed.

Lemma flt_not_nan (x y : f64) :
  flt x y = true → is_nan x = false ∧ is_nan y = false.
Proof. by destruct x as [| | |], y as [| | |]. Qed.

Lemma fle_refl (x : f64) : is_nan x = false → fle x x = true.
Proof. intros H. unfold fle, SFleb. by rewrite SFcompare_refl. Qed.

Lemma flt_not_fle (x y : f64) : flt x y = true → fle y x = false.
Proof.
  unfold flt, fle, SFltb, SFleb. rewrite (SFcompare_antisym x y).
  by destruct (SFcompare x y) as [[]|].
Qed.

End FloatOrder.

(** ** Running the store monad *)

Lemma store_update_eq st l f : store_update st l f l = f.
Proof. unfold store_update. by rewrite decide_True. Qed.

Lemma store_update_ne st l f l' : l' ≠ l → store_update st l f l' = st l'.
Proof. intros. unfold store_update. by rewrite decide_False. Qed.

Section Steps.
Context {B : Type}.

Lemma bind_getitem df k c (f : column → M B) st :
  st df !! k = Some c → (getitem df k ≫= f) st = f c st.
Proof. intros H. unfold mbind, M_bind, getitem. by rewrite H. Qed.

Lemma bind_getitem_missing df k (f : column → M B) st :
  st df !! k = None → (getitem df k ≫= f) st = (st, Raise (KeyError k)).
Proof. intros H. unfold mbind, M_bind, getitem. by rewrite H. Qed.

Lemma bind_setitem df k c (f : unit → M B) st :
  (setitem df k c ≫= f) st = f tt (store_update st df (<[k := c]> (st df))).
Proof. reflexivity. Qed.

Lemma bind_lift_ok {A} (a : A) (f : A → M B) st : (lift (Ok a) ≫= f) st = f a st.
Proof. reflexivity. Qed.

Lemma bind_lift_raise {A} e (f : A → M B) st :
  (lift (Raise e) ≫= f) st = (st, Raise e).
Proof. reflexivity. Qed.
End Steps.

Ltac lookup_key :=
  rewrite ?store_update_eq;
  repeat (rewrite lookup_insert_ne by discriminate);
  first [ apply lookup_insert_eq | eassumption ].

Ltac run_step :=
  first
    [ rewrite bind_setitem
    | rewrite bind_lift_ok
    | erewrite bind_getitem by lookup_key ].

(** The run on a frame whose two input columns are numeric: it returns the
    reference it was given, and the frame holds the five new columns. *)
Lemma calculate_variances_run self df st ca cb actual budget bv cats :
  st df !! "actual_spending" = Some ca →
  st df !! "monthly_budget" = Some cb →
  col_sub ca cb = Ok bv →
  as_float ca = Ok actual →
  as_float cb = Ok budget →
  series_apply (categorize_variance self) (pct_col bv budget) = Ok cats →
  ∃ st', calculate_variances self df st = (st', Ok df)
         ∧ st' df =
             <["needs attention" := BoolCol (col_isin (StrCol cats) attention_labels)]>
               (<["variance_category" := StrCol cats]>
                  (<["spending_rate" := FloatCol (pct_col actual budget)]>
                     (<["variance_pct" := FloatCol (pct_col bv budget)]>
                        (<["budget_variance" := FloatCol bv]> (st df)))))
         ∧ ∀ l, l ≠ df → st' l = st l.
Proof.
  intros Ha Hb Hv Hfa Hfb Hc.
  unfold calculate_variances.
  do 2 run_step. rewrite Hv.
  do 4 run_step. unfold col_div. cbn [as_float]. rewrite Hfb.
  cbn [mbind result_bind].
  do 4 run_step. rewrite Hfa, Hfb. cbn [mbind result_bind].
  do 3 run_step. cbn [as_float]. run_step.
  fold (pct_col bv budget). rewrite Hc. do 3 run_step.
  eexists. split; [reflexivity|]. split.
  - rewrite !store_update_eq. reflexivity.
  - intros l Hl. rewrite !store_update_ne by done. reflexivity.
Qed.

Lemma col_sub_as_float ca cb bv :
  col_sub ca cb = Ok bv → ∃ actual budget, as_float ca = Ok actual ∧ as_float cb = Ok budget.
Proof. destruct ca, cb; simpl; intros; try done; eauto. Qed.

(** Conversely, a run that returns went through every step. *)
Lemma calculate_variances_ok_inv self df st st' l :
  calculate_variances self df st = (st', Ok l) →
  ∃ ca cb actual budget bv cats,
    st df !! "actual_spending" = Some ca
    ∧ st df !! "monthly_budget" = Some cb
    ∧ col_sub ca cb = Ok bv
    ∧ as_float ca = Ok actual
    ∧ as_float cb = Ok budget
    ∧ series_apply (categorize_variance self) (pct_col bv budget) = Ok cats.
Proof.
  intros Hrun.
  destruct (st df !! "actual_spending") as [ca|] eqn:Ha;
    [|unfold calculate_variances in Hrun;
      by rewrite bind_getitem_missing in Hrun].
  destruct (st df !! "monthly_budget") as [cb|] eqn:Hb;
    [|unfold calculate_variances in Hrun;
      erewrite bind_getitem in Hrun by eassumption;
      by rewrite bind_getitem_missing in Hrun].
  destruct (col_sub ca cb) as [bv|e] eqn:Hv;
    [|unfold calculate_variances in Hrun;
      do 2 (erewrite bind_getitem in Hrun by eassumption);
      rewrite Hv in Hrun; by rewrite bind_lift_raise in Hrun].
  destruct (col_sub_as_float _ _ _ Hv) as (actual & budget & Hfa & Hfb).
  destruct (series_apply (categorize_variance self) (pct_col bv budget))
    as [cats|e] eqn:Hc.
  { by exists ca, cb, actual, budget, bv, cats. }
  exfalso. revert Hrun. unfold calculate_variances.
  do 2 run_step. rewrite Hv.
  do 4 run_step. unfold col_div. cbn [as_float]. rewrite Hfb.
  cbn [mbind result_bind].
  do 4 run_step. rewrite Hfa, Hfb. cbn [mbind result_bind].
  do 3 run_step. cbn [as_float]. run_step.
  fold (pct_col bv budget). rewrite Hc. by rewrite bind_lift_raise.
Qed.

(** ** What a run may write *)

Lemma only_writes_refl df keys st : only_writes df keys st st.
Proof. by split. Qed.

Lemma only_writes_trans df keys st1 st2 st3 :
  only_writes df keys st1 st2 → only_writes df keys st2 st3 →
  only_writes df keys st1 st3.
Proof.
  intros [H1 H1'] [H2 H2']. split.
  - intros l Hl. by rewrite H2, H1.
  - intros k Hk. by rewrite H2', H1'.
Qed.

Lemma preserves_getitem df keys k : preserves df keys (getitem df k).
Proof. intros st. apply only_writes_refl. Qed.

Lemma preserves_lift {A} df keys (r : result A) : preserves df keys (lift r).
Proof. intros st. apply only_writes_refl. Qed.

Lemma preserves_ret {A} df keys (a : A) : preserves df keys (mret a).
Proof. intros st. apply only_writes_refl. Qed.

Lemma preserves_setitem df keys k c : k ∈ keys → preserves df keys (setitem df k c).
Proof.
  intros Hk st. split; simpl.
  - intros l Hl. by rewrite store_update_ne.
  - intros k' Hk'. rewrite store_update_eq.
    apply lookup_insert_ne. intros ->. done.
Qed.

Lemma preserves_bind {A B} df keys (m : M A) (f : A → M B) :
  preserves df keys m → (∀ a, preserves df keys (f a)) →
  preserves df keys (m ≫= f).
Proof.
  intros Hm Hf st. unfold mbind, M_bind.
  specialize (Hm st). destruct (m st) as [st1 [a|e]]; simpl in *; [|done].
  eapply only_writes_trans; [exact Hm|apply Hf].
Qed.

Lemma calculate_variances_preserves self df :
  preserves df written_keys (calculate_variances self df).
Proof.
  unfold calculate_variances.
  repeat first
    [ apply preserves_ret
    | apply preserves_getitem
    | apply preserves_lift
    | apply preserves_setitem; unfold written_keys; set_solver
    | apply preserves_bind; [|intros ?] ].
Qed.

Lemma calculate_variances_returns_argument self df st st' l :
  calculate_variances self df st = (st', Ok l) → l = df.
Proof.
  intros Hrun.
  destruct (calculate_variances_ok_inv _ _ _ _ _ Hrun)
    as (ca & cb & actual & budget & bv & cats & Ha & Hb & Hv & Hfa & Hfb & Hc).
  destruct (calculate_variances_run self df st _ _ _ _ _ _ Ha Hb Hv Hfa Hfb Hc)
    as (st2 & Hrun2 & _).
  congruence.
Qed.

(** ** Rows of a run and [evaluate] *)

Lemma threshold_lookup self key t :
  variance_thresholds self !! key = Some t → threshold self key = Ok t.
Proof. intros H. unfold threshold. by rewrite H. Qed.

Lemma categorize_variance_thresholds self so sl slu su x :
  has_thresholds self so sl slu su →
  categorize_variance self x =
    Ok (if fle x so then "Significantly Overrun"
        else if fle x sl then "Slighty Overrun"
        else if fge x su then "Significantly Underspending"
        else if fge x slu then "Slightly Underspending"
        else "Within Target").
Proof.
  intros (H1 & H2 & H3 & H4). unfold categorize_variance.
  rewrite (threshold_lookup _ _ _ H1), (threshold_lookup _ _ _ H2),
    (threshold_lookup _ _ _ H3), (threshold_lookup _ _ _ H4).
  cbn [mbind result_bind].
  destruct (fle x so); [done|]. destruct (fle x sl); [done|].
  destruct (fge x su); [done|]. by destruct (fge x slu).
Qed.

Lemma evaluate_total self so sl slu su budget actual :
  has_thresholds self so sl slu su → ∃ r, evaluate self budget actual = Ok r.
Proof.
  intros H. unfold evaluate.
  rewrite (categorize_variance_thresholds _ _ _ _ _ _ H). cbn [mbind result_bind].
  eauto.
Qed.

Lemma series_apply_length {A B} (f : A → result B) s out :
  series_apply f s = Ok out → length out = length s.
Proof.
  revert out. induction s as [|x s IH]; intros out; simpl.
  - by intros [= <-].
  - destruct (f x) as [y|]; [|done]. cbn [mbind result_bind].
    destruct (series_apply f s) as [ys|]; [|done]. cbn [mbind result_bind].
    intros [= <-]. simpl. by rewrite (IH ys).
Qed.

Lemma series_apply_lookup {A B} (f : A → result B) s out i x :
  series_apply f s = Ok out → s !! i = Some x →
  ∃ y, out !! i = Some y ∧ f x = Ok y.
Proof.
  revert out i. induction s as [|x0 s IH]; intros out i; simpl; [done|].
  destruct (f x0) as [y0|] eqn:Hy; [|done]. cbn [mbind result_bind].
  destruct (series_apply f s) as [ys|]; [|done]. cbn [mbind result_bind].
  intros [= <-]. destruct i as [|i]; simpl.
  - intros [= ->]. eauto.
  - intros Hi. by apply IH.
Qed.

Lemma series_apply_total {A B} (f : A → result B) s :
  (∀ x, ∃ y, f x = Ok y) → ∃ out, series_apply f s = Ok out.
Proof.
  intros Hf. induction s as [|x s [ys IH]]; simpl; [eauto|].
  destruct (Hf x) as [y ->]. rewrite IH. cbn [mbind result_bind]. eauto.
Qed.

Lemma evaluate_ok_inv self budget actual r :
  evaluate self budget actual = Ok r →
  ∃ cat,
    categorize_variance self (pct_of (fsub actual budget) budget) = Ok cat
    ∧ r = {| budget_variance := fsub actual budget;
             variance_pct := pct_of (fsub actual budget) budget;
             spending_rate := pct_of actual budget;
             variance_category := cat;
             needs_attention := bool_decide (cat ∈ attention_labels) |}.
Proof.
  unfold evaluate.
  destruct (categorize_variance self _) as [cat|]; cbn [mbind result_bind];
    [|done].
  intros [= <-]. by exists cat.
Qed.

Lemma pct_col_cons n num d den :
  pct_col (n :: num) (d :: den) = pct_of n d :: pct_col num den.
Proof. reflexivity. Qed.

(** The rows a run writes are [evaluate] of the records, one for one. *)
Lemma rows_evaluate self (records : list (f64 * f64)) out :
  series_apply (fun r => evaluate self r.1 r.2) records = Ok out →
  let budget := records.*1 in
  let actual := records.*2 in
  let bv := zip_with fsub actual budget in
  ∃ cats,
    series_apply (categorize_variance self) (pct_col bv budget) = Ok cats
    ∧ zip_results bv (pct_col bv budget) (pct_col actual budget) cats
        (col_isin (StrCol cats) attention_labels) = out.
Proof.
  revert out. induction records as [|[b a] records IH]; intros out.
  - intros [= <-]. by exists [].
  - cbn [series_apply fst snd].
    destruct (evaluate self b a) as [r|] eqn:Hr; cbn [mbind result_bind]; [|done].
    destruct (series_apply _ records) as [rs|] eqn:Hrs;
      cbn [mbind result_bind]; [|done].
    intros [= <-].
    destruct (IH rs eq_refl) as (cats & Hcats & Hzip).
    destruct (evaluate_ok_inv _ _ _ _ Hr) as (c & Hc & ->).
    exists (c :: cats).
    cbn [fmap list_fmap fst snd zip_with]. rewrite !pct_col_cons.
    cbn [series_apply]. rewrite Hc. cbn [mbind result_bind].
    cbn [fmap list_fmap fst snd zip_with] in Hcats. rewrite Hcats.
    cbn [mbind result_bind]. split; [done|].
    cbn [col_isin fmap list_fmap zip_results]. f_equal. exact Hzip.
Qed.

Lemma calculate_variances_rows self (records : list (f64 * f64)) df st out :
  st df !! "monthly_budget" = Some (FloatCol records.*1) →
  st df !! "actual_spending" = Some (FloatCol records.*2) →
  series_apply (fun r => evaluate self r.1 r.2) records = Ok out →
  ∃ st', calculate_variances self df st = (st', Ok df)
         ∧ results_of (st' df) = Some out.
Proof.
  intros Hb Ha Hout. destruct (rows_evaluate _ _ _ Hout) as (cats & Hcats & Hzip).
  destruct (calculate_variances_run self df st
              (FloatCol records.*2) (FloatCol records.*1)
              records.*2 records.*1 (zip_with fsub records.*2 records.*1) cats)
    as (st' & Hrun & Hst' & _); try done.
  exists st'. split; [done|].
  rewrite Hst'. unfold results_of.
  repeat first [ rewrite lookup_insert_eq
               | rewrite lookup_insert_ne by discriminate ].
  by rewrite Hzip.
Qed.

Lemma run_records_evaluate self records out :
  series_apply (fun r => evaluate self r.1 r.2) records = Ok out →
  run_records self records = (Ok 0%nat, Some out).
Proof.
  intros Hout. unfold run_records.
  destruct (calculate_variances_rows self records 0%nat
              (store_of (frame_of_records records)) out)
    as (st' & -> & Hst'); try done.
  by rewrite Hst'.
Qed.

(** ** The claims about classification and flags *)

(** C1, the code at the claim's record: with the thresholds of [__init__],
    the record with budget 10000 and actual 11200 gets [variance_pct] 12.0,
    but the category the code assigns is 'Within Target' and the flag is
    [False], not 'Significantly Overrun' and [True]. *)
Theorem C1_overspend_by_12_percent_is_within_target :
  run_records init [(of_Z 10000, of_Z 11200)]
  = (Ok 0%nat,
     Some [ {| budget_variance := of_Z 1200;
               variance_pct := of_Z 12;
               spending_rate := of_Z 112;
               variance_category := "Within Target";
               needs_attention := false |} ]).
Proof. apply run_records_evaluate. vm_compute. reflexivity. Qed.

(** C2, refuted: the record with budget 0 and actual 500 raises nothing;
    the run returns and the row holds [+inf] in both percentages. *)
Lemma C2_zero_budget_returns_infinity :
  run_records init [(of_Z 0, of_Z 500)]
  = (Ok 0%nat,
     Some [ {| budget_variance := of_Z 500;
               variance_pct := pinf;
               spending_rate := pinf;
               variance_category := "Significantly Underspending";
               needs_attention := true |} ])
  ∧ ¬ raises (calculate_variances init 0%nat)
        (store_of (frame_of_records [(of_Z 0, of_Z 500)])).
Proof.
  assert (H : run_records init [(of_Z 0, of_Z 500)]
              = (Ok 0%nat,
                 Some [ {| budget_variance := of_Z 500;
                           variance_pct := pinf;
                           spending_rate := pinf;
                           variance_category := "Significantly Underspending";
                           needs_attention := true |} ])).
  { apply run_records_evaluate. vm_compute. reflexivity. }
  split; [exact H|].
  intros [e He]. unfold run_records in H.
  destruct (calculate_variances init 0%nat _) as [st' r]. simpl in He.
  congruence.
Qed.

Lemma pct_of_zero_budget (s : bool) (x : f64) :
  (is_inf (pct_of x (S754_zero s)) || is_nan (pct_of x (S754_zero s))) = true.
Proof. destruct x as [sx|sx| |sx m e], s; try destruct sx; reflexivity. Qed.

(** C2 as amended: for a record whose budget is zero, whatever the actual
    amount, nothing is raised: [evaluate] returns a result, the run on the
    frame returns it, and both percentages in it are infinite or NaN. *)
Theorem C2_zero_budget_yields_inf_or_nan (s : bool) (actual : f64) :
  ∃ r, evaluate init (S754_zero s) actual = Ok r
       ∧ run_records init [(S754_zero s, actual)] = (Ok 0%nat, Some [r])
       ∧ (is_inf (variance_pct r) || is_nan (variance_pct r)) = true
       ∧ (is_inf (spending_rate r) || is_nan (spending_rate r)) = true.
Proof.
  destruct (evaluate_total init (of_Z (-10)) (of_Z (-5)) (of_Z 15) (of_Z 25)
              (S754_zero s) actual) as [r Hr]; [by vm_compute|].
  exists r. split; [done|]. split.
  - apply run_records_evaluate. cbn [series_apply fst snd]. rewrite Hr. done.
  - destruct (evaluate_ok_inv _ _ _ _ Hr) as (c & _ & ->). simpl.
    split; apply pct_of_zero_budget.
Qed.

Lemma init_thresholds :
  has_thresholds init (of_Z (-10)) (of_Z (-5)) (of_Z 15) (of_Z 25).
Proof. by vm_compute. Qed.


(** C3: under a strictly ordered configuration each threshold value is
    classified into the more severe of its two neighbouring categories. *)
Theorem C3_thresholds_belong_to_the_severe_side
    self (sig_over sl_over sl_under sig_under : f64) :
  has_thresholds self sig_over sl_over sl_under sig_under →
  strictly_ordered sig_over sl_over sl_under sig_under →
  categorize_variance self sig_over = Ok "Significantly Overrun"
  ∧ categorize_variance self sl_over = Ok "Slighty Overrun"
  ∧ categorize_variance self sig_under = Ok "Significantly Underspending"
  ∧ categorize_variance self sl_under = Ok "Slightly Underspending".
Proof.
  intros Hth (H12 & H23 & H34).
  pose proof (flt_trans _ _ _ H12 H23) as H13.
  pose proof (flt_trans _ _ _ H13 H34) as H14.
  pose proof (flt_trans _ _ _ H23 H34) as H24.
  destruct (flt_not_nan _ _ H12) as [N1 N2].
  destruct (flt_not_nan _ _ H34) as [N3 N4].
  rewrite !(categorize_variance_thresholds _ _ _ _ _ _ Hth).
  change fge with (fun x y => fle y x). cbv beta.
  rewrite (fle_refl _ N1), (fle_refl _ N2), (fle_refl _ N3), (fle_refl _ N4).
  rewrite (flt_not_fle _ _ H12), (flt_not_fle _ _ H13), (flt_not_fle _ _ H14),
    (flt_not_fle _ _ H23), (flt_not_fle _ _ H24), (flt_not_fle _ _ H34).
  done.
Qed.

Lemma C3_witness :
  categorize_variance init (of_Z (-10)) = Ok "Significantly Overrun"
  ∧ categorize_variance init (of_Z (-5)) = Ok "Slighty Overrun"
  ∧ categorize_variance init (of_Z 25) = Ok "Significantly Underspending"
  ∧ categorize_variance init (of_Z 15) = Ok "Slightly Underspending".
Proof.
  apply (C3_thresholds_belong_to_the_severe_side
           init (of_Z (-10)) (of_Z (-5)) (of_Z 15) (of_Z 25)).
  - by vm_compute.
  - by vm_compute.
Defined.

Lemma pair_with_snd {A B} (p : A * B) (b : B) : p.2 = b → p = (p.1, b).
Proof. destruct p. simpl. by intros ->. Qed.

(** C7: in the frame a run returns, a row's 'needs attention' cell is
    [True] exactly when its 'variance_category' cell is 'Significantly
    Overrun' or 'Significantly Underspending'. *)
Theorem C7_needs_attention_iff_significant self df st st' l :
  calculate_variances self df st = (st', Ok l) →
  ∃ cats flags,
    st' df !! "variance_category" = Some (StrCol cats)
    ∧ st' df !! "needs attention" = Some (BoolCol flags)
    ∧ length flags = length cats
    ∧ ∀ i cat flag,
        cats !! i = Some cat → flags !! i = Some flag →
        (flag = true
         ↔ cat = "Significantly Overrun" ∨ cat = "Significantly Underspending").
Proof.
  intros Hrun.
  destruct (calculate_variances_ok_inv _ _ _ _ _ Hrun)
    as (ca & cb & actual & budget & bv & cats & Ha & Hb & Hv & Hfa & Hfb & Hc).
  destruct (calculate_variances_run self df st _ _ _ _ _ _ Ha Hb Hv Hfa Hfb Hc)
    as (st2 & Hrun2 & Hst2 & _).
  assert (st2 = st') as -> by congruence.
  exists cats, (col_isin (StrCol cats) attention_labels).
  rewrite Hst2. split; [|split; [|split]].
  - rewrite lookup_insert_ne by discriminate. apply lookup_insert_eq.
  - apply lookup_insert_eq.
  - cbn [col_isin]. apply length_fmap.
  - intros i cat flag Hcat. cbn [col_isin]. rewrite list_lookup_fmap, Hcat.
    intros [= <-]. rewrite bool_decide_eq_true. unfold attention_labels.
    rewrite !elem_of_cons, elem_of_nil. tauto.
Qed.

Lemma C7_witness :
  ∃ cats flags,
    (calculate_variances init 0%nat
       (store_of (frame_of_records [(of_Z 10000, of_Z 8700)]))).1 0%nat
      !! "variance_category" = Some (StrCol cats)
    ∧ (calculate_variances init 0%nat
         (store_of (frame_of_records [(of_Z 10000, of_Z 8700)]))).1 0%nat
        !! "needs attention" = Some (BoolCol flags)
    ∧ length flags = length cats
    ∧ ∀ i cat flag,
        cats !! i = Some cat → flags !! i = Some flag →
        (flag = true
         ↔ cat = "Significantly Overrun" ∨ cat = "Significantly Underspending").
Proof.
  apply (C7_needs_attention_iff_significant init 0%nat
           (store_of (frame_of_records [(of_Z 10000, of_Z 8700)])) _ 0%nat).
  apply pair_with_snd. vm_compute. reflexivity.
Defined.

(** C9: a run over a frame holding the records returns one row per record,
    in the records' order: the row at index [i] is [evaluate] of the record
    at index [i], the frame has as many rows as records, and the two input
    columns still hold the records. *)
Theorem C9_one_result_per_record_in_order
    self (so sl slu su : f64) (records : list (f64 * f64)) df st :
  has_thresholds self so sl slu su →
  st df !! "monthly_budget" = Some (FloatCol records.*1) →
  st df !! "actual_spending" = Some (FloatCol records.*2) →
  ∃ st' out,
    calculate_variances self df st = (st', Ok df)
    ∧ results_of (st' df) = Some out
    ∧ length out = length records
    ∧ (∀ i budget actual,
         records !! i = Some (budget, actual) →
         ∃ r, out !! i = Some r ∧ evaluate self budget actual = Ok r)
    ∧ st' df !! "monthly_budget" = Some (FloatCol records.*1)
    ∧ st' df !! "actual_spending" = Some (FloatCol records.*2).
Proof.
  intros Hth Hb Ha.
  destruct (series_apply_total (fun r => evaluate self r.1 r.2) records)
    as [out Hout].
  { intros [b a]. exact (evaluate_total _ _ _ _ _ b a Hth). }
  destruct (calculate_variances_rows _ _ _ _ _ Hb Ha Hout) as (st' & Hrun & Hres).
  exists st', out. split; [done|]. split; [done|].
  split; [exact (series_apply_length _ _ _ Hout)|].
  split.
  { intros i b a Hi.
    destruct (series_apply_lookup _ _ _ _ _ Hout Hi) as (r & Hr & Hev). eauto. }
  pose proof (calculate_variances_preserves self df st) as [_ Hkeys].
  rewrite Hrun in Hkeys. simpl in Hkeys.
  rewrite !Hkeys; [done| |]; unfold written_keys;
    rewrite !elem_of_cons, elem_of_nil; intros H; repeat destruct H as [H|H];
      done.
Qed.

Lemma C9_witness :
  ∃ st' out,
    calculate_variances init 0%nat
      (store_of (frame_of_records [(of_Z 10000, of_Z 11200); (of_Z 10000, of_Z 8700)]))
    = (st', Ok 0%nat)
    ∧ results_of (st' 0%nat) = Some out
    ∧ length out = 2%nat
    ∧ (∀ i budget actual,
         [(of_Z 10000, of_Z 11200); (of_Z 10000, of_Z 8700)] !! i
         = Some (budget, actual) →
         ∃ r, out !! i = Some r ∧ evaluate init budget actual = Ok r)
    ∧ st' 0%nat !! "monthly_budget" = Some (FloatCol [of_Z 10000; of_Z 10000])
    ∧ st' 0%nat !! "actual_spending" = Some (FloatCol [of_Z 11200; of_Z 8700]).
Proof.
  apply (C9_one_result_per_record_in_order init
           (of_Z (-10)) (of_Z (-5)) (of_Z 15) (of_Z 25)
           [(of_Z 10000, of_Z 11200); (of_Z 10000, of_Z 8700)] 0%nat).
  - by vm_compute.
  - reflexivity.
  - reflexivity.
Defined.

(** C10, refuted as stated: a budget of zero does not decide the outcome,
    because binary64 has two zeros.  [-0.0] compares equal to [0.0], and
    with budget [-0.0] and actual 500 the run yields [-inf] and
    'Significantly Overrun', not [+inf] and 'Significantly
    Underspending'. *)
Lemma C10_negative_zero_budget_is_an_overrun :
  fle nzero pzero = true
  ∧ fle pzero nzero = true
  ∧ run_records init [(nzero, of_Z 500)]
    = (Ok 0%nat,
       Some [ {| budget_variance := of_Z 500;
                 variance_pct := ninf;
                 spending_rate := ninf;
                 variance_category := "Significantly Overrun";
                 needs_attention := true |} ]).
Proof.
  split; [reflexivity|]. split; [reflexivity|].
  apply run_records_evaluate. vm_compute. reflexivity.
Qed.

(** C10 as amended: with the thresholds of [__init__], a record with
    budget [+0.0] and a positive actual amount runs without raising and
    yields [+inf], 'Significantly Underspending' and [True]; with budget
    [-0.0] and a positive actual amount it yields [-inf], 'Significantly
    Overrun' and [True]; budget 0 with actual 0 yields NaN, 'Within Target'
    and [False], whatever the signs of the two zeros. *)
Theorem C10_zero_budget_rows :
  (∀ actual, flt pzero actual = true →
     run_records init [(pzero, actual)]
     = (Ok 0%nat,
        Some [ {| budget_variance := actual;
                  variance_pct := pinf;
                  spending_rate := pinf;
                  variance_category := "Significantly Underspending";
                  needs_attention := true |} ]))
  ∧ run_records init [(pzero, pzero)]
    = (Ok 0%nat,
       Some [ {| budget_variance := pzero;
                 variance_pct := nan;
                 spending_rate := nan;
                 variance_category := "Within Target";
                 needs_attention := false |} ])
  ∧ (∀ actual, flt pzero actual = true →
       run_records init [(nzero, actual)]
       = (Ok 0%nat,
          Some [ {| budget_variance := actual;
                    variance_pct := ninf;
                    spending_rate := ninf;
                    variance_category := "Significantly Overrun";
                    needs_attention := true |} ]))
  ∧ (∀ sb sa : bool,
       run_records init [(S754_zero sb, S754_zero sa)]
       = (Ok 0%nat,
          Some [ {| budget_variance := fsub (S754_zero sa) (S754_zero sb);
                    variance_pct := nan;
                    spending_rate := nan;
                    variance_category := "Within Target";
                    needs_attention := false |} ])).
Proof.
  split; [|split; [|split]].
  - intros actual Hpos. apply run_records_evaluate.
    destruct actual as [s|s| |s m e]; try destruct s; try discriminate Hpos;
      reflexivity.
  - apply run_records_evaluate. reflexivity.
  - intros actual Hpos. apply run_records_evaluate.
    destruct actual as [s|s| |s m e]; try destruct s; try discriminate Hpos;
      reflexivity.
  - intros sb sa. apply run_records_evaluate. by destruct sb, sa.
Qed.

Lemma C10_witness :
  run_records init [(pzero, of_Z 500)]
  = (Ok 0%nat,
     Some [ {| budget_variance := of_Z 500;
               variance_pct := pinf;
               spending_rate := pinf;
               variance_category := "Significantly Underspending";
               needs_attention := true |} ]).
Proof. apply (proj1 C10_zero_budget_rows (of_Z 500)). reflexivity. Defined.

(** ** The claims about effects and configuration *)

(** C4, refuted: the frame passed in is modified.  Before the run the
    frame has no 'budget_variance' column; after it, the same frame (the
    run returns the reference it was given) has one. *)
Lemma C4_input_frame_is_modified :
  store_of (frame_of_records [(of_Z 10000, of_Z 11200)]) 0%nat
    !! "budget_variance" = None
  ∧ (calculate_variances init 0%nat
       (store_of (frame_of_records [(of_Z 10000, of_Z 11200)]))).2 = Ok 0%nat
  ∧ (calculate_variances init 0%nat
       (store_of (frame_of_records [(of_Z 10000, of_Z 11200)]))).1 0%nat
      !! "budget_variance" = Some (FloatCol [of_Z 1200]).
Proof. split; [|split]; vm_compute; reflexivity. Qed.

(** C4 as amended: a run assigns the columns 'budget_variance',
    'variance_pct', 'spending_rate', 'variance_category' and 'needs
    attention' in the frame it was given, and returns that frame.  On a
    frame with two float input columns, for an analyzer holding its four
    thresholds, the run does return, and the frame then holds the five
    columns computed from the two inputs, on top of what it held; every
    run that returns has left the frame so.  The run has no other effect,
    whether it returns or raises: every other column of that frame, the
    two input columns among them, and every other frame are as they
    were. *)
Theorem C4_assigns_its_five_columns_in_place self df st :
  (∀ actual budget so sl slu su,
     st df !! "actual_spending" = Some (FloatCol actual) →
     st df !! "monthly_budget" = Some (FloatCol budget) →
     has_thresholds self so sl slu su →
     ∃ st' cats,
       calculate_variances self df st = (st', Ok df)
       ∧ series_apply (categorize_variance self)
           (pct_col (zip_with fsub actual budget) budget) = Ok cats
       ∧ st' df =
           <["needs attention" := BoolCol (col_isin (StrCol cats) attention_labels)]>
             (<["variance_category" := StrCol cats]>
                (<["spending_rate" := FloatCol (pct_col actual budget)]>
                   (<["variance_pct" :=
                        FloatCol (pct_col (zip_with fsub actual budget) budget)]>
                      (<["budget_variance" := FloatCol (zip_with fsub actual budget)]>
                         (st df))))))
  ∧ (∀ st' l,
       calculate_variances self df st = (st', Ok l) →
       l = df
       ∧ ∃ ca cb actual budget bv cats,
           st df !! "actual_spending" = Some ca
           ∧ st df !! "monthly_budget" = Some cb
           ∧ col_sub ca cb = Ok bv
           ∧ as_float ca = Ok actual
           ∧ as_float cb = Ok budget
           ∧ series_apply (categorize_variance self) (pct_col bv budget) = Ok cats
           ∧ st' df =
               <["needs attention" := BoolCol (col_isin (StrCol cats) attention_labels)]>
                 (<["variance_category" := StrCol cats]>
                    (<["spending_rate" := FloatCol (pct_col actual budget)]>
                       (<["variance_pct" := FloatCol (pct_col bv budget)]>
                          (<["budget_variance" := FloatCol bv]> (st df))))))
  ∧ only_writes df written_keys st (calculate_variances self df st).1
  ∧ (calculate_variances self df st).1 df !! "monthly_budget"
    = st df !! "monthly_budget"
  ∧ (calculate_variances self df st).1 df !! "actual_spending"
    = st df !! "actual_spending"
  ∧ ((calculate_variances self df st).2 = Ok df
     ∨ raises (calculate_variances self df) st).
Proof.
  split; [|split].
  - intros actual budget so sl slu su Ha Hb Hth.
    destruct (series_apply_total (categorize_variance self)
                (pct_col (zip_with fsub actual budget) budget)) as [cats Hc].
    { intros x. rewrite (categorize_variance_thresholds _ _ _ _ _ x Hth). eauto. }
    destruct (calculate_variances_run self df st _ _ actual budget _ cats Ha Hb
                eq_refl eq_refl eq_refl Hc) as (st' & Hrun & Hst' & _).
    by exists st', cats.
  - intros st' l Hrun.
    destruct (calculate_variances_ok_inv _ _ _ _ _ Hrun)
      as (ca & cb & actual & budget & bv & cats & Ha & Hb & Hv & Hfa & Hfb & Hc).
    destruct (calculate_variances_run self df st _ _ _ _ _ _ Ha Hb Hv Hfa Hfb Hc)
      as (st2 & Hrun2 & Hst2 & _).
    rewrite Hrun in Hrun2. injection Hrun2 as <- ->.
    split; [done|]. by exists ca, cb, actual, budget, bv, cats.
  - pose proof (calculate_variances_preserves self df st) as Hw.
    split; [exact Hw|]. destruct Hw as [_ Hkeys].
    split; [|split].
    + apply Hkeys. unfold written_keys. rewrite !elem_of_cons, elem_of_nil.
      intros H; repeat destruct H as [H|H]; done.
    + apply Hkeys. unfold written_keys. rewrite !elem_of_cons, elem_of_nil.
      intros H; repeat destruct H as [H|H]; done.
    + destruct (calculate_variances self df st) as [st' [l|e]] eqn:Hrun.
      * left. simpl. f_equal.
        exact (calculate_variances_returns_argument _ _ _ _ _ Hrun).
      * right. exists e. by rewrite Hrun.
Qed.

Lemma C4_witness :
  ∃ st' cats,
    calculate_variances init 0%nat
      (store_of (frame_of_records [(of_Z 10000, of_Z 11200)])) = (st', Ok 0%nat)
    ∧ series_apply (categorize_variance init)
        (pct_col (zip_with fsub [of_Z 11200] [of_Z 10000]) [of_Z 10000]) = Ok cats
    ∧ st' 0%nat =
        <["needs attention" := BoolCol (col_isin (StrCol cats) attention_labels)]>
          (<["variance_category" := StrCol cats]>
             (<["spending_rate" := FloatCol (pct_col [of_Z 11200] [of_Z 10000])]>
                (<["variance_pct" :=
                     FloatCol (pct_col (zip_with fsub [of_Z 11200] [of_Z 10000])
                                 [of_Z 10000])]>
                   (<["budget_variance" :=
                        FloatCol (zip_with fsub [of_Z 11200] [of_Z 10000])]>
                      (store_of (frame_of_records [(of_Z 10000, of_Z 11200)])
                         0%nat))))).
Proof.
  apply (proj1 (C4_assigns_its_five_columns_in_place init 0%nat
                  (store_of (frame_of_records [(of_Z 10000, of_Z 11200)])))
           [of_Z 11200] [of_Z 10000] (of_Z (-10)) (of_Z (-5)) (of_Z 15) (of_Z 25)).
  - reflexivity.
  - reflexivity.
  - by vm_compute.
Defined.



(** ** The claims about rounding *)

(** [rne_div] is a nearest integer of [m / d], the even one on a tie. *)
Lemma rne_div_spec (m d : Z) :
  0 < d →
  2 * Z.abs (rne_div m d * d - m) <= d
  ∧ (2 * Z.abs (rne_div m d * d - m) = d → Z.even (rne_div m d) = true).
Proof.
  intros Hd. unfold rne_div.
  pose proof (Z.div_mod m d ltac:(lia)) as Hdm.
  pose proof (Z.mod_pos_bound m d Hd) as Hr.
  destruct (Z.compare_spec (2 * (m mod d)) d) as [He|Hl|Hg].
  - destruct (Z.even (m / d)) eqn:Hev.
    + split; [nia|]. done.
    + split; [nia|]. intros _. rewrite Z.even_add, Hev. done.
  - split; [nia|]. intros H. nia.
  - split; [nia|]. intros H. nia.
Qed.

Lemma Qabs_dist (n m : Z) (d : positive) :
  (Qabs (inject_Z n - (m # d)) == Z.abs (n * Z.pos d - m) # d)%Q.
Proof.
  unfold Qminus, Qplus, Qopp, inject_Z, Qabs, Qeq. simpl.
  f_equal. f_equal. lia.
Qed.

Lemma Qabs_dist_opp (n m : Z) (d : positive) :
  (Qabs (inject_Z (- n) - - (m # d)) == Z.abs (n * Z.pos d - m) # d)%Q.
Proof.
  unfold Qminus, Qplus, Qopp, inject_Z, Qabs, Qeq.
  cbn [Qnum Qden]. rewrite Z.opp_involutive, Z.mul_opp_l, Pos.mul_1_l, Z.mul_1_r.
  f_equal. lia.
Qed.

(** [rint] rounds to an integral value, to nearest, ties to even. *)
Lemma rint_rounded_half_even (x : f64) : rounded_half_even x (rint x).
Proof.
  destruct x as [s|s| |s m [|p|p]]; try reflexivity.
  unfold rounded_half_even, rint.
  exists (cond_Zopp s (rne_div (Z.pos m) (2 ^ Z.pos p))).
  split; [reflexivity|].
  assert (Hd : 2 ^ Z.pos p = Z.pos (2 ^ p)) by (by rewrite Pos2Z.inj_pow).
  destruct (rne_div_spec (Z.pos m) (2 ^ Z.pos p)) as [Hle Htie]; [lia|].
  rewrite Hd in *.
  assert (Hq : (Qabs (inject_Z (cond_Zopp s (rne_div (Z.pos m) (Z.pos (2 ^ p))))
                      - F2Q (S754_finite s m (Z.neg p)))
                == Z.abs (rne_div (Z.pos m) (Z.pos (2 ^ p)) * Z.pos (2 ^ p) - Z.pos m)
                   # 2 ^ p)%Q).
  { destruct s; cbn [F2Q cond_Zopp]; [apply Qabs_dist_opp|apply Qabs_dist]. }
  split.
  - rewrite Hq. unfold Qle. simpl. lia.
  - intros Htie'. rewrite Hq in Htie'. unfold Qeq in Htie'. simpl in Htie'.
    destruct s; simpl; [rewrite Z.even_opp|]; apply Htie; lia.
Qed.

(** ** Rounding error of the binary64 operations *)

Lemma pow2_pos e : (0 < pow2 e)%Q.
Proof. apply Qpower_0_lt. reflexivity. Qed.

Lemma pow2_add a b : (pow2 (a + b) == pow2 a * pow2 b)%Q.
Proof. apply Qpower_plus. discriminate. Qed.

Lemma pow2_succ a : (pow2 (a + 1) == 2 * pow2 a)%Q.
Proof. rewrite pow2_add. change (pow2 1) with 2%Q. ring. Qed.

Lemma pow2_nonneg_Z e : 0 <= e → (pow2 e == inject_Z (2 ^ e))%Q.
Proof.
  intros He. unfold pow2. change 2%Q with (inject_Z 2).
  symmetry. apply Zpower_Qpower. exact He.
Qed.

Lemma pow2_le a b : a <= b → (pow2 a <= pow2 b)%Q.
Proof. intros H. apply Qpower_le_compat_l; [exact H|discriminate]. Qed.

(** [Zdigits2 n] is the number of binary digits of [n]. *)
Lemma digits2_pos_bounds (p : positive) :
  2 ^ (Z.pos (digits2_pos p) - 1) <= Z.pos p < 2 ^ Z.pos (digits2_pos p).
Proof.
  induction p as [p IH|p IH|]; simpl digits2_pos.
  - rewrite Pos2Z.inj_succ.
    replace (Z.succ (Z.pos (digits2_pos p)) - 1) with ((Z.pos (digits2_pos p) - 1) + 1) by lia.
    rewrite !Z.pow_succ_r, Z.pow_add_r by lia. lia.
  - rewrite Pos2Z.inj_succ.
    replace (Z.succ (Z.pos (digits2_pos p)) - 1) with ((Z.pos (digits2_pos p) - 1) + 1) by lia.
    rewrite !Z.pow_succ_r, Z.pow_add_r by lia. lia.
  - simpl. lia.
Qed.

Lemma Zdigits2_bounds (n : Z) :
  0 < n → 0 < Zdigits2 n ∧ 2 ^ (Zdigits2 n - 1) <= n < 2 ^ Zdigits2 n.
Proof.
  destruct n as [|p|p]; try lia. intros _. simpl Zdigits2.
  split; [lia|apply digits2_pos_bounds].
Qed.

Lemma Zdigits2_unique (n d : Z) :
  2 ^ (d - 1) <= n < 2 ^ d → 0 < n → Zdigits2 n = d.
Proof.
  intros [Hl Hu] Hn. destruct (Zdigits2_bounds n Hn) as (Hd & Hl' & Hu').
  assert (0 < d).
  { destruct (Z.le_gt_cases d 0) as [H|H]; [|done].
    destruct (Z.eq_dec d 0) as [->|]; [simpl in Hu; lia|].
    rewrite Z.pow_neg_r in Hu by lia. lia. }
  destruct (Z.lt_trichotomy (Zdigits2 n) d) as [H1|[H1|H1]]; [|done|].
  - assert (2 ^ Zdigits2 n <= 2 ^ (d - 1)) by (apply Z.pow_le_mono_r; lia). lia.
  - assert (2 ^ d <= 2 ^ (Zdigits2 n - 1)) by (apply Z.pow_le_mono_r; lia). lia.
Qed.

Lemma Zdigits2_nonneg n : 0 <= Zdigits2 n.
Proof. destruct n; simpl; lia. Qed.

(** One right shift halves the mantissa and keeps track of where the real
    lies. *)
Lemma shr_1_spec (mrs : shr_record) (X : Q) :
  0 <= shr_m mrs →
  inbetween (shr_m mrs) (loc_of_shr_record mrs) X →
  shr_m (shr_1 mrs) = shr_m mrs / 2
  ∧ inbetween (shr_m (shr_1 mrs)) (loc_of_shr_record (shr_1 mrs)) (X * (1 # 2)).
Proof.
  destruct mrs as [m r s]. cbn [shr_m]. intros Hm Hin. split.
  - rewrite <- Z.div2_div. destruct m as [|[p|p|]|p]; try lia; reflexivity.
  - destruct m as [|[p|p|]|p]; try lia; destruct r, s;
      cbn [shr_1 orb shr_m loc_of_shr_record inbetween] in *;
      rewrite ?(Pos2Z.inj_xI p), ?(Pos2Z.inj_xO p), ?inject_Z_plus, ?inject_Z_mult in Hin;
      change (inject_Z 2) with 2%Q in Hin; change (inject_Z 1) with 1%Q in *;
      change (inject_Z 0) with 0%Q in *; lra.
Qed.

Lemma iter_pos_shr_1_spec (p : positive) : ∀ (mrs : shr_record) (X : Q),
  0 <= shr_m mrs →
  inbetween (shr_m mrs) (loc_of_shr_record mrs) X →
  shr_m (SpecFloat.iter_pos shr_1 p mrs) = shr_m mrs / 2 ^ Z.pos p
  ∧ inbetween (shr_m (SpecFloat.iter_pos shr_1 p mrs))
      (loc_of_shr_record (SpecFloat.iter_pos shr_1 p mrs)) (X / pow2 (Z.pos p)).
Proof.
  assert (Hstep : ∀ a b, 0 < a → 0 < b → ∀ m, m / a / b = m / (a * b)).
  { intros a b Ha Hb m. apply Z.div_div; lia. }
  induction p as [p IH|p IH|]; intros mrs X Hm Hin; cbn [SpecFloat.iter_pos].
  - destruct (shr_1_spec mrs X Hm Hin) as [E1 I1].
    assert (H1 : 0 <= shr_m (shr_1 mrs)) by (rewrite E1; apply Z.div_pos; lia).
    destruct (IH _ _ H1 I1) as [E2 I2].
    assert (H2 : 0 <= shr_m (SpecFloat.iter_pos shr_1 p (shr_1 mrs))).
    { rewrite E2. apply Z.div_pos; lia. }
    destruct (IH _ _ H2 I2) as [E3 I3]. split.
    + pose proof (Z.pow_pos_nonneg 2 (Z.pos p) ltac:(lia) ltac:(lia)).
      rewrite E3, E2, E1, !Hstep by lia. f_equal.
      rewrite (Pos2Z.inj_xI p).
      replace (2 * Z.pos p + 1) with (Z.pos p + Z.pos p + 1) by lia.
      rewrite !Z.pow_add_r by lia. lia.
    + assert (Hp : (pow2 (Z.pos p~1) == 2 * pow2 (Z.pos p) * pow2 (Z.pos p))%Q).
      { rewrite (Pos2Z.inj_xI p).
        replace (2 * Z.pos p + 1) with (Z.pos p + Z.pos p + 1) by lia.
        rewrite pow2_succ, pow2_add. ring. }
      pose proof (pow2_pos (Z.pos p)) as Hpos.
      assert (Heq : (X * (1 # 2) / pow2 (Z.pos p) / pow2 (Z.pos p) == X / pow2 (Z.pos p~1))%Q).
      { rewrite Hp. field. lra. }
      revert I3. generalize (SpecFloat.iter_pos shr_1 p (SpecFloat.iter_pos shr_1 p (shr_1 mrs))).
      intros mrs3. unfold inbetween.
      destruct (loc_of_shr_record mrs3) as [|[]]; rewrite Heq; done.
  - destruct (IH _ _ Hm Hin) as [E2 I2].
    assert (H2 : 0 <= shr_m (SpecFloat.iter_pos shr_1 p mrs)).
    { rewrite E2. apply Z.div_pos; lia. }
    destruct (IH _ _ H2 I2) as [E3 I3]. split.
    + pose proof (Z.pow_pos_nonneg 2 (Z.pos p) ltac:(lia) ltac:(lia)).
      rewrite E3, E2, !Hstep by lia. f_equal.
      rewrite (Pos2Z.inj_xO p).
      replace (2 * Z.pos p) with (Z.pos p + Z.pos p) by lia.
      rewrite !Z.pow_add_r by lia. lia.
    + assert (Hp : (pow2 (Z.pos p~0) == pow2 (Z.pos p) * pow2 (Z.pos p))%Q).
      { rewrite (Pos2Z.inj_xO p).
        replace (2 * Z.pos p) with (Z.pos p + Z.pos p) by lia.
        rewrite pow2_add. ring. }
      pose proof (pow2_pos (Z.pos p)) as Hpos.
      assert (Heq : (X / pow2 (Z.pos p) / pow2 (Z.pos p) == X / pow2 (Z.pos p~0))%Q).
      { rewrite Hp. field. lra. }
      revert I3. generalize (SpecFloat.iter_pos shr_1 p (SpecFloat.iter_pos shr_1 p mrs)).
      intros mrs3. unfold inbetween.
      destruct (loc_of_shr_record mrs3) as [|[]]; rewrite Heq; done.
  - destruct (shr_1_spec mrs X Hm Hin) as [E1 I1]. split; [exact E1|].
    assert (Heq : (X * (1 # 2) == X / pow2 1)%Q) by (change (pow2 1) with 2%Q; field).
    revert I1. generalize (shr_1 mrs). intros mrs3. unfold inbetween.
    destruct (loc_of_shr_record mrs3) as [|[]]; rewrite Heq; done.
Qed.

Lemma fexp64_eq e : fexp64 e = Z.max (e - 53) (-1074).
Proof. reflexivity. Qed.

Lemma loc_of_shr_record_of_loc m l :
  loc_of_shr_record (shr_record_of_loc m l) = l
  ∧ shr_m (shr_record_of_loc m l) = m.
Proof. by destruct l as [|[]]. Qed.

Lemma Zdigits2_div_pow2 (m p : Z) :
  0 < p → 2 ^ p <= m → Zdigits2 (m / 2 ^ p) = Zdigits2 m - p.
Proof.
  intros Hp Hm.
  assert (H2p : 0 < 2 ^ p) by (apply Z.pow_pos_nonneg; lia).
  destruct (Zdigits2_bounds m ltac:(lia)) as (Hd & Hl & Hu).
  assert (Hpd : p < Zdigits2 m).
  { destruct (Z.lt_ge_cases p (Zdigits2 m)) as [H|H]; [done|].
    assert (2 ^ Zdigits2 m <= 2 ^ p) by (apply Z.pow_le_mono_r; lia). lia. }
  apply Zdigits2_unique.
  - split.
    + apply Z.div_le_lower_bound; [lia|].
      rewrite <- Z.pow_add_r by lia.
      replace (p + (Zdigits2 m - p - 1)) with (Zdigits2 m - 1) by lia. done.
    + apply Z.div_lt_upper_bound; [lia|].
      rewrite <- Z.pow_add_r by lia.
      replace (p + (Zdigits2 m - p)) with (Zdigits2 m) by lia. done.
  - apply Z.div_str_pos. lia.
Qed.

Lemma Zdigits2_small (m p : Z) :
  0 <= m → 0 < p → m / 2 ^ p = 0 → Zdigits2 m <= p.
Proof.
  intros Hm Hp Hz.
  assert (H2p : 0 < 2 ^ p) by (apply Z.pow_pos_nonneg; lia).
  destruct (Z.eq_dec m 0) as [->|Hne]; [simpl; lia|].
  destruct (Zdigits2_bounds m ltac:(lia)) as (Hd & Hl & Hu).
  apply Z.div_small_iff in Hz; [|lia]. destruct Hz as [Hz|Hz]; [|lia].
  destruct (Z.le_gt_cases (Zdigits2 m) p) as [H|H]; [done|].
  assert (2 ^ p <= 2 ^ (Zdigits2 m - 1)) by (apply Z.pow_le_mono_r; lia). lia.
Qed.

(** The first shift of [binary_round_aux] brings the mantissa to its format
    exponent without moving the real it brackets. *)
Lemma shr_fexp_spec (m0 ex : Z) (l0 : location) (X : Q) :
  0 <= m0 →
  inbetween m0 l0 X →
  l0 = loc_Exact ∨ ex <= fexp64 (Zdigits2 m0 + ex) →
  let mrs := (shr_fexp prec emax m0 ex l0).1 in
  let e' := (shr_fexp prec emax m0 ex l0).2 in
  0 <= shr_m mrs
  ∧ inbetween (shr_m mrs) (loc_of_shr_record mrs) (X * pow2 ex / pow2 e')
  ∧ aligned (shr_m mrs) e' (loc_of_shr_record mrs).
Proof.
  intros Hm Hin Hal. unfold shr_fexp, shr.
  fold (fexp64 (Zdigits2 m0 + ex)).
  destruct (loc_of_shr_record_of_loc m0 l0) as [Hl0 Hm0].
  destruct (fexp64 (Zdigits2 m0 + ex) - ex) as [|p|p] eqn:Hk; cbn [fst snd].
  - rewrite Hl0, Hm0. split; [done|]. split.
    + assert (Heq : (X * pow2 ex / pow2 ex == X)%Q).
      { field. pose proof (pow2_pos ex). lra. }
      unfold inbetween. destruct l0 as [|[]]; rewrite Heq; done.
    + unfold aligned. destruct Hal as [->|Hal]; [right; split; [done|lia]|left; lia].
  - destruct (iter_pos_shr_1_spec p (shr_record_of_loc m0 l0) X) as [E I].
    { by rewrite Hm0. }
    { by rewrite Hl0, Hm0. }
    rewrite Hm0 in E.
    assert (H2p : 0 < 2 ^ Z.pos p) by (apply Z.pow_pos_nonneg; lia).
    split; [rewrite E; apply Z.div_pos; lia|]. split.
    + assert (Heq : (X * pow2 ex / pow2 (ex + Z.pos p) == X / pow2 (Z.pos p))%Q).
      { rewrite pow2_add. field.
        pose proof (pow2_pos ex). pose proof (pow2_pos (Z.pos p)). lra. }
      revert I. generalize (loc_of_shr_record (SpecFloat.iter_pos shr_1 p (shr_record_of_loc m0 l0))).
      generalize (shr_m (SpecFloat.iter_pos shr_1 p (shr_record_of_loc m0 l0))).
      intros m' l'. unfold inbetween. destruct l' as [|[]]; rewrite Heq; done.
    + left. rewrite E.
      destruct (Z.le_gt_cases (2 ^ Z.pos p) m0) as [Hbig|Hsmall].
      * rewrite Zdigits2_div_pow2 by lia.
        replace (Zdigits2 m0 - Z.pos p + (ex + Z.pos p)) with (Zdigits2 m0 + ex) by lia.
        lia.
      * rewrite Z.div_small by lia. cbn [Zdigits2].
        pose proof (Zdigits2_small m0 (Z.pos p) Hm ltac:(lia)
                      ltac:(apply Z.div_small; lia)) as Hd.
        pose proof (Zdigits2_nonneg m0).
        rewrite fexp64_eq in *. lia.
  - rewrite Hl0, Hm0. split; [done|]. split.
    + assert (Heq : (X * pow2 ex / pow2 ex == X)%Q).
      { field. pose proof (pow2_pos ex). lra. }
      unfold inbetween. destruct l0 as [|[]]; rewrite Heq; done.
    + unfold aligned. destruct Hal as [->|Hal]; [right; split; [done|lia]|left; lia].
Qed.

Lemma Zdigits2_succ (m : Z) :
  0 <= m →
  Zdigits2 (m + 1) = Zdigits2 m
  ∨ (Zdigits2 (m + 1) = Zdigits2 m + 1 ∧ m + 1 = 2 ^ Zdigits2 m).
Proof.
  intros Hm. destruct (Z.eq_dec m 0) as [->|Hne]; [right; by simpl|].
  destruct (Zdigits2_bounds m ltac:(lia)) as (Hd & Hl & Hu).
  destruct (Z.eq_dec (m + 1) (2 ^ Zdigits2 m)) as [He|Hn].
  - right. split; [|done]. apply Zdigits2_unique; [|lia].
    replace (Zdigits2 m + 1 - 1) with (Zdigits2 m) by lia.
    rewrite Z.pow_add_r by lia. lia.
  - left. apply Zdigits2_unique; lia.
Qed.

Lemma round_nearest_even_spec (m : Z) (l : location) (Y : Q) :
  inbetween m l Y →
  let m2 := round_nearest_even m l in
  (m2 = m ∨ (m2 = m + 1 ∧ l ≠ loc_Exact))
  ∧ (Qabs (inject_Z m2 - Y) <= 1 # 2)%Q
  ∧ (l = loc_Exact → (Y == inject_Z m)%Q).
Proof.
  intros Hin. cbn zeta.
  destruct l as [|[]]; cbn [round_nearest_even inbetween] in *.
  - split; [by left|]. split; [|done].
    apply Qabs_Qle_condition. lra.
  - destruct (Z.even m).
    + split; [by left|]. split; [|done]. apply Qabs_Qle_condition. lra.
    + split; [by right|]. split; [|done]. rewrite inject_Z_plus.
      change (inject_Z 1) with 1%Q. apply Qabs_Qle_condition. lra.
  - split; [by left|]. split; [|done]. apply Qabs_Qle_condition. lra.
  - split; [by right|]. split; [|done]. rewrite inject_Z_plus.
    change (inject_Z 1) with 1%Q. apply Qabs_Qle_condition. lra.
Qed.

Lemma inbetween_nonneg m l Y : 0 <= m → inbetween m l Y → (0 <= Y)%Q.
Proof.
  intros Hm Hin. assert (0 <= inject_Z m)%Q by (change 0%Q with (inject_Z 0); rewrite <- Zle_Qle; done).
  destruct l as [|[]]; cbn [inbetween] in Hin; lra.
Qed.

Lemma inbetween_lower m l Y : inbetween m l Y → (inject_Z m <= Y)%Q.
Proof. destruct l as [|[]]; cbn [inbetween]; lra. Qed.

(** Rounding to nearest even and the second shift: the value kept is the
    rounded mantissa, and it is within the rounding error of the real. *)
Lemma round_renormalize_spec (m' e' : Z) (l' : location) (Y : Q) :
  0 <= m' →
  inbetween m' l' Y →
  aligned m' e' l' →
  let m2 := round_nearest_even m' l' in
  let mrs := (shr_fexp prec emax m2 e' loc_Exact).1 in
  let e2 := (shr_fexp prec emax m2 e' loc_Exact).2 in
  0 <= shr_m mrs
  ∧ (inject_Z (shr_m mrs) * pow2 e2 == inject_Z m2 * pow2 e')%Q
  ∧ (Qabs (inject_Z m2 * pow2 e' - Y * pow2 e')
     <= pow2 (-53) * (Y * pow2 e') + pow2 (-1075))%Q.
Proof.
  intros Hm Hin Hal. cbn zeta.
  destruct (round_nearest_even_spec m' l' Y Hin) as (Hm2 & Hhalf & Hex).
  set (m2 := round_nearest_even m' l') in *.
  assert (Hm2pos : 0 <= m2) by (destruct Hm2 as [->|[-> _]]; lia).
  pose proof (inbetween_nonneg _ _ _ Hm Hin) as HY.
  pose proof (pow2_pos e') as HP.
  split; [|split].
  - unfold shr_fexp, shr.
    destruct (fexp prec emax (Zdigits2 m2 + e') - e') as [|p|p]; cbn [fst];
      try done.
    destruct (iter_pos_shr_1_spec p (shr_record_of_loc m2 loc_Exact)
                (inject_Z m2)) as [E _]; [done|simpl; reflexivity|].
    rewrite E. apply Z.div_pos; [done|]. apply Z.pow_pos_nonneg; lia.
  - unfold shr_fexp, shr. fold (fexp64 (Zdigits2 m2 + e')).
    destruct (fexp64 (Zdigits2 m2 + e') - e') as [|p|p] eqn:Hk; cbn [fst snd];
      try reflexivity.
    (* a shift happens only after a carry to a power of two *)
    assert (Hcarry : p = 1%positive ∧ ∃ d, 0 < d ∧ m2 = 2 ^ d).
    { destruct Hm2 as [E|[E Hl]].
      - rewrite E in Hk. unfold aligned in Hal. lia.
      - destruct Hal as [Hal|[Hal _]]; [|done].
        rewrite E in Hk |- *.
        destruct (Zdigits2_succ m' Hm) as [Hd|[Hd Hpow]].
        + rewrite Hd in Hk. lia.
        + rewrite Hd in Hk. rewrite fexp64_eq in *.
          pose proof (Zdigits2_nonneg m').
          split; [lia|]. exists (Zdigits2 m'). split; [|done].
          destruct (Z.eq_dec (Zdigits2 m') 0); lia. }
    destruct Hcarry as [-> (d & Hd & Hpow)].
    destruct (iter_pos_shr_1_spec 1 (shr_record_of_loc m2 loc_Exact)
                (inject_Z m2)) as [E _]; [done|simpl; reflexivity|].
    rewrite E. cbn [shr_record_of_loc shr_m].
    rewrite pow2_succ. rewrite Hpow.
    replace d with ((d - 1) + 1) at 1 by lia.
    rewrite Z.pow_add_r, Z.pow_1_r by lia. rewrite Z.div_mul by lia.
    replace d with ((d - 1) + 1) by lia.
    rewrite Z.pow_add_r, Z.pow_1_r by lia. rewrite inject_Z_mult.
    change (inject_Z 2) with 2%Q.
    replace (d - 1 + 1 - 1) with (d - 1) by lia. ring.
  - assert (Hdist : (Qabs (inject_Z m2 * pow2 e' - Y * pow2 e')
                     == Qabs (inject_Z m2 - Y) * pow2 e')%Q).
    { rewrite <- (Qabs_pos (pow2 e')) at 3 by lra.
      rewrite <- Qabs_Qmult. apply Qabs_wd. ring. }
    rewrite Hdist.
    pose proof (pow2_pos (-1075)) as Heta.
    destruct l' as [|c] eqn:Hl.
    + (* exact: no error *)
      specialize (Hex eq_refl).
      assert (Hz : (Qabs (inject_Z m2 - Y) == 0)%Q).
      { destruct Hm2 as [->|[_ ?]]; [|done].
        assert (H0 : (inject_Z m' - Y == 0)%Q) by lra.
        rewrite H0. reflexivity. }
      rewrite Hz.
      assert (0 <= pow2 (-53) * (Y * pow2 e'))%Q.
      { apply Qmult_le_0_compat; [apply Qlt_le_weak, pow2_pos|].
        apply Qmult_le_0_compat; lra. }
      lra.
    + destruct Hal as [Hal|[Hal _]]; [|done].
      rewrite fexp64_eq in Hal.
      destruct (Z.eq_dec e' (-1074)) as [->|Hne].
      * (* subnormal range: half the smallest spacing *)
        assert (Hs : (pow2 (-1074) == 2 * pow2 (-1075))%Q).
        { change (-1074) with (-1075 + 1). apply pow2_succ. }
        assert (0 <= pow2 (-53) * (Y * pow2 (-1074)))%Q.
        { apply Qmult_le_0_compat; [apply Qlt_le_weak, pow2_pos|].
          apply Qmult_le_0_compat; lra. }
        assert (Qabs (inject_Z m2 - Y) * pow2 (-1074) <= (1 # 2) * pow2 (-1074))%Q.
        { apply Qmult_le_compat_r; lra. }
        lra.
      * (* normal range: the mantissa has 53 digits *)
        assert (Hd : Zdigits2 m' = 53) by lia.
        assert (Hpos : 0 < m') by (destruct m'; simpl in Hd; lia).
        destruct (Zdigits2_bounds m' Hpos) as (_ & Hlow & _).
        rewrite Hd in Hlow.
        assert (HYlow : (inject_Z (2 ^ 52) <= Y)%Q).
        { apply Qle_trans with (inject_Z m'); [by rewrite <- Zle_Qle|].
          by apply inbetween_lower with (l := loc_Inexact c). }
        assert (Hu : (pow2 (-53) * inject_Z (2 ^ 52) == 1 # 2)%Q) by reflexivity.
        assert (Qabs (inject_Z m2 - Y) * pow2 e' <= (1 # 2) * pow2 e')%Q.
        { apply Qmult_le_compat_r; lra. }
        assert ((1 # 2) * pow2 e' <= pow2 (-53) * (Y * pow2 e'))%Q.
        { rewrite <- Hu.
          rewrite (Qmult_assoc (pow2 (-53)) Y (pow2 e')).
          apply Qmult_le_compat_r; [|lra].
          apply Qmult_le_l; [apply pow2_pos|done]. }
        lra.
Qed.

Lemma pow2_neg p : (pow2 (Z.neg p) == 1 # 2 ^ p)%Q.
Proof.
  change (Z.neg p) with (- Z.pos p). unfold pow2. rewrite Qpower_opp.
  fold (pow2 (Z.pos p)). rewrite pow2_nonneg_Z by lia.
  rewrite <- Pos2Z.inj_pow. reflexivity.
Qed.

Lemma F2Q_finite s m e :
  (F2Q (S754_finite s m e) == Qsign s (inject_Z (Z.pos m) * pow2 e))%Q.
Proof.
  assert (Hmag : (match e with
                  | Z.neg p => Z.pos m # 2 ^ p
                  | _ => inject_Z (Z.pos m * 2 ^ e)
                  end == inject_Z (Z.pos m) * pow2 e)%Q).
  { destruct e as [|p|p].
    - change (pow2 0) with 1%Q. rewrite Z.mul_1_r. ring.
    - rewrite inject_Z_mult, pow2_nonneg_Z by lia. reflexivity.
    - rewrite pow2_neg. unfold Qeq, Qmult, inject_Z. simpl. lia. }
  unfold F2Q, Qsign. destruct s; rewrite Hmag; reflexivity.
Qed.

Lemma Qabs_Qsign_diff s a b :
  (Qabs (Qsign s a - Qsign s b) == Qabs (a - b))%Q.
Proof.
  destruct s; unfold Qsign; [|reflexivity].
  rewrite <- (Qabs_opp (a - b)). apply Qabs_wd. ring.
Qed.

(** A finite result of [binary_round_aux] is within the rounding error of
    the real it was given. *)
Lemma binary_round_aux_error (sx : bool) (m0 ex : Z) (l0 : location) (X : Q) :
  0 <= m0 →
  inbetween m0 l0 X →
  l0 = loc_Exact ∨ ex <= fexp64 (Zdigits2 m0 + ex) →
  is_finite (binary_round_aux prec emax sx m0 ex l0) = true →
  (Qabs (F2Q (binary_round_aux prec emax sx m0 ex l0) - Qsign sx (X * pow2 ex))
   <= rnd_err (X * pow2 ex))%Q.
Proof.
  intros Hm Hin Hal. unfold binary_round_aux.
  destruct (shr_fexp_spec m0 ex l0 X Hm Hin Hal) as (Hm1 & Hin1 & Hal1).
  destruct (shr_fexp prec emax m0 ex l0) as [mrs1 e1]. cbn [fst snd] in *.
  destruct (round_renormalize_spec _ _ _ _ Hm1 Hin1 Hal1) as (Hm2 & Hval & Herr).
  destruct (shr_fexp prec emax _ e1 loc_Exact) as [mrs2 e2]. cbn [fst snd] in *.
  set (m2 := round_nearest_even (shr_m mrs1) (loc_of_shr_record mrs1)) in *.
  assert (Hv : (X * pow2 ex / pow2 e1 * pow2 e1 == X * pow2 ex)%Q).
  { field. pose proof (pow2_pos e1). lra. }
  rewrite Hv in Herr. unfold rnd_err.
  destruct (shr_m mrs2) as [|m|m] eqn:Hs; [| |lia].
  - intros _. cbn [F2Q].
    assert (Hz : (inject_Z m2 * pow2 e1 == 0)%Q) by (rewrite <- Hval; ring).
    rewrite Hz in Herr.
    assert (Hs0 : (Qabs (0 - Qsign sx (X * pow2 ex)) == Qabs (0 - X * pow2 ex))%Q).
    { destruct sx; unfold Qsign; [|reflexivity].
      rewrite <- (Qabs_opp (0 - X * pow2 ex)). apply Qabs_wd. ring. }
    rewrite Hs0. exact Herr.
  - destruct (e2 <=? emax - prec); [|done]. intros _.
    rewrite F2Q_finite, Qabs_Qsign_diff, Hval. exact Herr.
Qed.

Lemma Qsign_xorb_mult s1 s2 a b :
  (Qsign s1 a * Qsign s2 b == Qsign (xorb s1 s2) (a * b))%Q.
Proof. destruct s1, s2; unfold Qsign; simpl; ring. Qed.

Lemma Qabs_Qsign s a : (0 <= a)%Q → (Qabs (Qsign s a) == a)%Q.
Proof.
  intros Ha. destruct s; unfold Qsign; [rewrite Qabs_opp|]; by apply Qabs_pos.
Qed.

Lemma rnd_err_nonneg v : (0 <= v)%Q → (0 <= rnd_err v)%Q.
Proof.
  intros Hv. unfold rnd_err.
  pose proof (pow2_pos (-53)). pose proof (pow2_pos (-1075)).
  assert (0 <= pow2 (-53) * v)%Q by (apply Qmult_le_0_compat; lra). lra.
Qed.

Lemma rnd_err_wd v w : (v == w)%Q → (rnd_err v == rnd_err w)%Q.
Proof. intros H. unfold rnd_err. by rewrite H. Qed.

#[global] Instance rnd_err_proper : Proper (Qeq ==> Qeq) rnd_err.
Proof. intros v w H. by apply rnd_err_wd. Qed.

(** binary64 multiplication is the exact product up to the rounding error. *)
Lemma fmul_error (x y : f64) :
  is_finite x = true → is_finite y = true → is_finite (fmul x y) = true →
  (Qabs (F2Q (fmul x y) - F2Q x * F2Q y) <= rnd_err (Qabs (F2Q x * F2Q y)))%Q.
Proof.
  intros Hx Hy.
  destruct x as [sx|sx| |sx mx ex]; try discriminate Hx;
    destruct y as [sy|sy| |sy my ey]; try discriminate Hy.
  1-3: intros _; cbn [fmul SFmul F2Q];
    (assert (Hz : ∀ q, (0 - 0 * q == 0)%Q) by (intros; ring));
    (assert (Hz' : ∀ q, (0 - q * 0 == 0)%Q) by (intros; ring));
    rewrite ?Hz, ?Hz'; apply rnd_err_nonneg, Qabs_nonneg.
  intros Hfin. unfold fmul, SFmul in *.
  pose proof (binary_round_aux_error (xorb sx sy) (Z.pos (mx * my)) (ex + ey)
                loc_Exact (inject_Z (Z.pos (mx * my))) ltac:(lia)
                ltac:(simpl; reflexivity) ltac:(by left) Hfin) as Herr.
  assert (Hprod : (F2Q (S754_finite sx mx ex) * F2Q (S754_finite sy my ey)
                   == Qsign (xorb sx sy)
                        (inject_Z (Z.pos (mx * my)) * pow2 (ex + ey)))%Q).
  { rewrite !F2Q_finite, Qsign_xorb_mult. 
    assert (Hm : (inject_Z (Z.pos mx) * pow2 ex * (inject_Z (Z.pos my) * pow2 ey)
             == inject_Z (Z.pos (mx * my)) * pow2 (ex + ey))%Q).
    { rewrite Pos2Z.inj_mul, inject_Z_mult, pow2_add. ring. }
    destruct (xorb sx sy); unfold Qsign; rewrite Hm; reflexivity. }
  assert (Hpos : (0 <= inject_Z (Z.pos (mx * my)) * pow2 (ex + ey))%Q).
  { apply Qmult_le_0_compat; [|apply Qlt_le_weak, pow2_pos].
    change 0%Q with (inject_Z 0). rewrite <- Zle_Qle. lia. }
  assert (Hr : (rnd_err (Qabs (F2Q (S754_finite sx mx ex) * F2Q (S754_finite sy my ey)))
                == rnd_err (inject_Z (Z.pos (mx * my)) * pow2 (ex + ey)))%Q).
  { apply rnd_err_wd. rewrite Hprod. by apply Qabs_Qsign. }
  rewrite Hr, Hprod. exact Herr.
Qed.

(** The location computed from a remainder brackets the exact quotient. *)
Lemma new_location_spec (M q r : Z) (X : Q) :
  0 < M → 0 <= r < M →
  (X * inject_Z M == inject_Z (q * M + r))%Q →
  inbetween q (new_location M r) X.
Proof.
  intros HM Hr HX.
  rewrite inject_Z_plus, inject_Z_mult in HX.
  assert (HMq : (0 < inject_Z M)%Q).
  { change 0%Q with (inject_Z 0). by rewrite <- Zlt_Qlt. }
  assert (Hr0 : (0 <= inject_Z r)%Q).
  { change 0%Q with (inject_Z 0). rewrite <- Zle_Qle. lia. }
  assert (Hrel : ∀ c : comparison,
            (2 * r ?= M) = c →
            match c with
            | Lt => (2 * inject_Z r < inject_Z M)%Q
            | Eq => (2 * inject_Z r == inject_Z M)%Q
            | Gt => (inject_Z M < 2 * inject_Z r)%Q
            end).
  { intros c Hc. change 2%Q with (inject_Z 2). rewrite <- inject_Z_mult.
    destruct c.
    - apply Z.compare_eq in Hc. by rewrite Hc.
    - rewrite <- Zlt_Qlt. by apply Z.compare_lt_iff.
    - rewrite <- Zlt_Qlt. by apply Z.compare_gt_iff. }
  assert (Hrlt : (inject_Z r < inject_Z M)%Q) by (rewrite <- Zlt_Qlt; lia).
  set (D := (X - inject_Z q)%Q).
  assert (HD : (D * inject_Z M == inject_Z r)%Q) by (unfold D; lra).
  assert (Hloc : ∀ c, (2 * r ?= M) = c → r ≠ 0 →
                      inbetween q (loc_Inexact c) X).
  { intros c Hc Hne. specialize (Hrel c Hc).
    assert (Hrpos : (0 < inject_Z r)%Q).
    { change 0%Q with (inject_Z 0). rewrite <- Zlt_Qlt. lia. }
    destruct c; cbn [inbetween].
    - assert (D == 1 # 2)%Q; [|unfold D in *; lra].
      apply (Qmult_inj_r _ _ (inject_Z M)); [lra|]. lra.
    - assert (0 < D ∧ D < 1 # 2)%Q; [|unfold D in *; lra].
      split.
      + apply (Qmult_lt_r _ _ (inject_Z M)); [done|]. lra.
      + apply (Qmult_lt_r _ _ (inject_Z M)); [done|]. lra.
    - assert ((1 # 2) < D ∧ D < 1)%Q; [|unfold D in *; lra].
      split.
      + apply (Qmult_lt_r _ _ (inject_Z M)); [done|]. lra.
      + apply (Qmult_lt_r _ _ (inject_Z M)); [done|]. lra. }
  unfold new_location.
  destruct (Z.eq_dec r 0) as [->|Hne].
  { assert (D == 0)%Q.
    { apply (Qmult_inj_r _ _ (inject_Z M)); [lra|].
      change (inject_Z 0) with 0%Q in HD. lra. }
    destruct (Z.even M); unfold new_location_even, new_location_odd;
      cbn [Z.eqb inbetween]; unfold D in *; lra. }
  destruct (Z.even M) eqn:Hev; unfold new_location_even, new_location_odd;
    rewrite (proj2 (Z.eqb_neq r 0) Hne).
  - by apply Hloc.
  - destruct (Z.compare_spec (2 * r + 1) M) as [Hc|Hc|Hc].
    + apply Hloc; [|done]. apply Z.compare_lt_iff. lia.
    + apply Hloc; [|done]. apply Z.compare_lt_iff. lia.
    + apply Hloc; [|done]. apply Z.compare_gt_iff.
      assert (2 * r ≠ M); [|lia].
      intros <-. rewrite Z.even_mul in Hev. done.
Qed.

Lemma Zdigits2_lower (n k : Z) : 0 <= k → 2 ^ k <= n → k < Zdigits2 n.
Proof.
  intros Hk Hn.
  assert (0 < 2 ^ k) by (apply Z.pow_pos_nonneg; lia).
  destruct (Zdigits2_bounds n ltac:(lia)) as (Hd & _ & Hu).
  destruct (Z.lt_ge_cases k (Zdigits2 n)) as [H1|H1]; [done|].
  assert (2 ^ Zdigits2 n <= 2 ^ k) by (apply Z.pow_le_mono_r; lia). lia.
Qed.

(** The integer quotient and exponent of a division bracket the exact
    quotient, with enough digits for one rounding. *)
Lemma SFdiv_core_binary_spec (mx my : positive) (ex ey : Z) :
  let q := (SFdiv_core_binary prec emax (Z.pos mx) ex (Z.pos my) ey).1.1 in
  let ez := (SFdiv_core_binary prec emax (Z.pos mx) ex (Z.pos my) ey).1.2 in
  let lz := (SFdiv_core_binary prec emax (Z.pos mx) ex (Z.pos my) ey).2 in
  ∃ X : Q,
    0 <= q
    ∧ inbetween q lz X
    ∧ ez <= fexp64 (Zdigits2 q + ez)
    ∧ (X * pow2 ez
       == inject_Z (Z.pos mx) * pow2 ex / (inject_Z (Z.pos my) * pow2 ey))%Q.
Proof.
  unfold SFdiv_core_binary.
  set (d1 := Zdigits2 (Z.pos mx)). set (d2 := Zdigits2 (Z.pos my)).
  fold (fexp64 (d1 + ex - (d2 + ey))).
  set (ez := Z.min (fexp64 (d1 + ex - (d2 + ey))) (ex - ey)).
  set (s := ex - ey - ez).
  assert (Hs : 0 <= s) by (unfold s, ez; lia).
  set (m' := match s with
             | 0 => Z.pos mx
             | Z.pos _ => Z.shiftl (Z.pos mx) s
             | Z.neg _ => 0
             end).
  assert (Hm' : m' = Z.pos mx * 2 ^ s).
  { unfold m'. destruct s as [|p|p] eqn:Es; [lia| |lia].
    rewrite Z.shiftl_mul_pow2 by lia. reflexivity. }
  assert (H2s : 0 < 2 ^ s) by (apply Z.pow_pos_nonneg; lia).
  pose proof (Z_div_mod m' (Z.pos my) ltac:(lia)) as Hdm.
  destruct (Z.div_eucl m' (Z.pos my)) as [q r]. destruct Hdm as [Hdm Hr].
  cbn [fst snd].
  assert (Hq : 0 <= q) by nia.
  exists (inject_Z m' / inject_Z (Z.pos my))%Q.
  assert (Hmy : (0 < inject_Z (Z.pos my))%Q).
  { change 0%Q with (inject_Z 0). by rewrite <- Zlt_Qlt. }
  split; [done|]. split; [|split].
  - apply new_location_spec; [lia|lia|].
    rewrite Hdm. rewrite (Z.mul_comm (Z.pos my) q). field. lra.
  - (* the quotient carries at least 53 digits whenever it can *)
    rewrite fexp64_eq.
    destruct (Z.le_gt_cases ez (-1074)) as [Hsub|Hnorm]; [lia|].
    assert (HE : ez <= fexp64 (d1 + ex - (d2 + ey))) by (unfold ez; lia).
    rewrite fexp64_eq in HE.
    assert (Hdig : 53 <= d1 - d2 + s) by (unfold s; lia).
    destruct (Zdigits2_bounds (Z.pos mx) ltac:(lia)) as (Hd1 & Hl1 & _).
    destruct (Zdigits2_bounds (Z.pos my) ltac:(lia)) as (Hd2 & _ & Hu2).
    fold d1 in Hd1, Hl1. fold d2 in Hd2, Hu2.
    assert (Hbig : 2 ^ 52 * 2 ^ d2 <= m').
    { rewrite Hm'. rewrite <- Z.pow_add_r by lia.
      apply Z.le_trans with (2 ^ (d1 - 1) * 2 ^ s); [|nia].
      rewrite <- Z.pow_add_r by lia. apply Z.pow_le_mono_r; lia. }
    assert (Hq52 : 2 ^ 52 <= q).
    { destruct (Z.le_gt_cases (2 ^ 52) q) as [H|H]; [done|].
      assert (q + 1 <= 2 ^ 52) by lia.
      assert (m' < 2 ^ 52 * 2 ^ d2); [|lia].
      rewrite Hdm. nia. }
    pose proof (Zdigits2_lower q 52 ltac:(lia) Hq52). lia.
  - rewrite Hm', inject_Z_mult, <- pow2_nonneg_Z by lia.
    assert (Hex : (pow2 ex == pow2 s * pow2 ez * pow2 ey)%Q).
    { rewrite <- !pow2_add. unfold s. f_equiv. lia. }
    rewrite Hex. field.
    pose proof (pow2_pos ey). lra.
Qed.

Lemma Qsign_xorb_div s1 s2 a b :
  (0 < b)%Q → (Qsign s1 a / Qsign s2 b == Qsign (xorb s1 s2) (a / b))%Q.
Proof. intros Hb. destruct s1, s2; unfold Qsign; simpl; field; lra. Qed.

Lemma mag_pos m e : (0 < inject_Z (Z.pos m) * pow2 e)%Q.
Proof.
  apply Qmult_lt_0_compat; [|apply pow2_pos].
  change 0%Q with (inject_Z 0). by rewrite <- Zlt_Qlt.
Qed.

(** binary64 division by a finite nonzero value is the exact quotient up to
    the rounding error. *)
Lemma fdiv_error (x : f64) (sy : bool) (my : positive) (ey : Z) :
  is_finite x = true →
  is_finite (fdiv x (S754_finite sy my ey)) = true →
  (Qabs (F2Q (fdiv x (S754_finite sy my ey)) - F2Q x / F2Q (S754_finite sy my ey))
   <= rnd_err (Qabs (F2Q x / F2Q (S754_finite sy my ey))))%Q.
Proof.
  intros Hx.
  destruct x as [sx|sx| |sx mx ex]; try discriminate Hx.
  { intros _. cbn [fdiv SFdiv]. change (F2Q (S754_zero sx)) with 0%Q.
    change (F2Q (S754_zero (xorb sx sy))) with 0%Q.
    assert (Hz : ∀ q, (0 - 0 / q == 0)%Q) by (intros; unfold Qdiv; ring).
    rewrite Hz. apply rnd_err_nonneg, Qabs_nonneg. }
  unfold fdiv, SFdiv.
  destruct (SFdiv_core_binary_spec mx my ex ey) as (X & Hq & Hin & Hal & HX).
  destruct (SFdiv_core_binary prec emax (Z.pos mx) ex (Z.pos my) ey) as [[q ez] lz].
  cbn [fst snd] in *. intros Hfin.
  pose proof (binary_round_aux_error (xorb sx sy) q ez lz X Hq Hin
                (or_intror Hal) Hfin) as Herr.
  pose proof (mag_pos mx ex) as Hpx. pose proof (mag_pos my ey) as Hpy.
  assert (Hquot : (F2Q (S754_finite sx mx ex) / F2Q (S754_finite sy my ey)
                   == Qsign (xorb sx sy) (X * pow2 ez))%Q).
  { rewrite !F2Q_finite, Qsign_xorb_div by done.
    destruct (xorb sx sy); unfold Qsign; rewrite HX; reflexivity. }
  assert (Hpos : (0 <= X * pow2 ez)%Q).
  { rewrite HX. apply Qlt_le_weak. apply Qlt_shift_div_l; lra. }
  assert (Hr : (rnd_err (Qabs (F2Q (S754_finite sx mx ex) / F2Q (S754_finite sy my ey)))
                == rnd_err (X * pow2 ez))%Q).
  { apply rnd_err_wd. rewrite Hquot. by apply Qabs_Qsign. }
  rewrite Hr, Hquot. exact Herr.
Qed.

Lemma Pos_iter_xO (m d : positive) :
  Z.pos (Pos.iter xO m d) = Z.pos m * 2 ^ Z.pos d.
Proof.
  induction d as [|d IH] using Pos.peano_ind.
  - simpl. lia.
  - rewrite Pos.iter_succ, Pos2Z.inj_xO, IH, Pos2Z.inj_succ, Z.pow_succ_r by lia.
    ring.
Qed.

Lemma shl_align_spec (mx : positive) (ex ex' : Z) :
  (inject_Z (Z.pos (shl_align mx ex ex').1) * pow2 (shl_align mx ex ex').2
   == inject_Z (Z.pos mx) * pow2 ex)%Q.
Proof.
  unfold shl_align. destruct (ex' - ex) as [|d|d] eqn:Hd; cbn [fst snd];
    try reflexivity.
  rewrite Pos_iter_xO, inject_Z_mult, <- pow2_nonneg_Z by lia.
  rewrite <- Qmult_assoc, <- pow2_add. f_equiv. f_equiv. lia.
Qed.

Lemma binary_round_error (s : bool) (mx : positive) (ex : Z) :
  is_finite (binary_round prec emax s mx ex) = true →
  (Qabs (F2Q (binary_round prec emax s mx ex)
         - Qsign s (inject_Z (Z.pos mx) * pow2 ex))
   <= rnd_err (inject_Z (Z.pos mx) * pow2 ex))%Q.
Proof.
  unfold binary_round.
  pose proof (shl_align_spec mx ex (fexp prec emax (Z.pos (digits2_pos mx) + ex)))
    as Hval.
  destruct (shl_align mx ex _) as [mz ez]. cbn [fst snd] in Hval.
  intros Hfin.
  pose proof (binary_round_aux_error s (Z.pos mz) ez loc_Exact (inject_Z (Z.pos mz))
                ltac:(lia) ltac:(simpl; reflexivity) ltac:(by left) Hfin) as Herr.
  assert (Hr : (rnd_err (inject_Z (Z.pos mx) * pow2 ex)
                == rnd_err (inject_Z (Z.pos mz) * pow2 ez))%Q).
  { apply rnd_err_wd. by rewrite Hval. }
  rewrite Hr.
  assert (Hs : (Qsign s (inject_Z (Z.pos mx) * pow2 ex)
                == Qsign s (inject_Z (Z.pos mz) * pow2 ez))%Q).
  { destruct s; unfold Qsign; by rewrite Hval. }
  rewrite Hs. exact Herr.
Qed.

(** The binary64 value of an integer is that integer up to the rounding
    error. *)
Lemma of_int_error (s : bool) (n : Z) :
  is_finite (of_int s n) = true →
  (Qabs (F2Q (of_int s n) - inject_Z n) <= rnd_err (Qabs (inject_Z n)))%Q.
Proof.
  unfold of_int, binary_normalize. destruct n as [|m|m].
  - intros _. cbn [F2Q]. apply rnd_err_nonneg, Qabs_nonneg.
  - intros Hfin. pose proof (binary_round_error false m 0 Hfin) as Herr.
    cbn [Qsign] in Herr. change (pow2 0) with 1%Q in Herr.
    rewrite Qmult_1_r in Herr.
    rewrite (Qabs_pos (inject_Z (Z.pos m))); [exact Herr|].
    change 0%Q with (inject_Z 0). rewrite <- Zle_Qle. lia.
  - intros Hfin. pose proof (binary_round_error true m 0 Hfin) as Herr.
    cbn [Qsign] in Herr. change (pow2 0) with 1%Q in Herr.
    rewrite Qmult_1_r in Herr.
    change (Qabs (inject_Z (Z.neg m))) with (inject_Z (Z.pos m)).
    change (inject_Z (Z.neg m)) with (- inject_Z (Z.pos m))%Q.
    exact Herr.
Qed.

Lemma rnd_err_mono v w : (v <= w)%Q → (rnd_err v <= rnd_err w)%Q.
Proof.
  intros H. unfold rnd_err. pose proof (pow2_pos (-53)).
  assert (pow2 (-53) * v <= pow2 (-53) * w)%Q by (apply Qmult_le_l; done).
  lra.
Qed.

Lemma Qabs_triangle_diff a b c :
  (Qabs (a - c) <= Qabs (a - b) + Qabs (b - c))%Q.
Proof.
  assert (H : (a - c == (a - b) + (b - c))%Q) by ring.
  rewrite H. apply Qabs_triangle.
Qed.

Lemma Qabs_le_add a b d : (Qabs (a - b) <= d)%Q → (Qabs a <= Qabs b + d)%Q.
Proof.
  intros H. assert (Ha : (a == (a - b) + b)%Q) by ring.
  rewrite Ha at 1. eapply Qle_trans; [apply Qabs_triangle|]. lra.
Qed.

(** [rint] moves a finite value by at most 1/2, up to the rounding error. *)
Lemma rint_error (x : f64) :
  is_finite (rint x) = true →
  is_finite x = true
  ∧ (Qabs (F2Q (rint x) - F2Q x)
     <= (1 # 2) + rnd_err (Qabs (F2Q x) + (1 # 2)))%Q.
Proof.
  intros Hfin.
  assert (Hself : ∀ y : f64, is_finite y = true →
            (Qabs (F2Q y - F2Q y) <= (1 # 2) + rnd_err (Qabs (F2Q y) + (1 # 2)))%Q).
  { intros y _. assert (H0 : (F2Q y - F2Q y == 0)%Q) by ring. rewrite H0.
    pose proof (Qabs_nonneg (F2Q y)).
    pose proof (rnd_err_nonneg (Qabs (F2Q y) + (1 # 2)) ltac:(lra)).
    change (Qabs 0) with 0%Q. lra. }
  pose proof (rint_rounded_half_even x) as Hr.
  destruct x as [s|s| |s m [|p|p]]; try discriminate Hfin;
    try (split; [done|]; by apply Hself).
  cbn [rounded_half_even] in Hr. destruct Hr as (n & Hy & Hhalf & _).
  split; [done|]. rewrite Hy in Hfin |- *.
  pose proof (of_int_error s n Hfin) as Herr.
  set (x := S754_finite s m (Z.neg p)) in *.
  eapply Qle_trans; [apply (Qabs_triangle_diff _ (inject_Z n))|].
  assert (Hn : (Qabs (inject_Z n) <= Qabs (F2Q x) + (1 # 2))%Q).
  { by apply Qabs_le_add. }
  pose proof (rnd_err_mono _ _ Hn). lra.
Qed.

Lemma Qabs_cases (x : Q) :
  ((0 <= x)%Q ∧ (Qabs x == x)%Q) ∨ ((x <= 0)%Q ∧ (Qabs x == - x)%Q).
Proof.
  destruct (Qlt_le_dec x 0) as [H|H].
  - right. split; [lra|]. apply Qabs_neg. lra.
  - left. split; [done|]. by apply Qabs_pos.
Qed.

Ltac split_abs x :=
  let Hs := fresh "Hs" in
  let He := fresh "He" in
  destruct (Qabs_cases x) as [[Hs He]|[Hs He]]; rewrite He in *; clear He.

(** The errors of the five steps of a percentage, put together: with [y]
    the exact quotient, [q] the binary64 quotient, [p] and [s] the two
    scalings by 100, [t] the integral value and [vp] the result. *)
Lemma chain_bound (y q p s t vp eta : Q) :
  (0 < eta)%Q → (eta <= 1 # 1000000000000000000000000)%Q →
  (Qabs (q - y) <= (1 # 9007199254740992) * Qabs y + eta)%Q →
  (Qabs (p - q * 100) <= (1 # 9007199254740992) * Qabs (q * 100) + eta)%Q →
  (Qabs (s - p * 100) <= (1 # 9007199254740992) * Qabs (p * 100) + eta)%Q →
  (Qabs (t - s)
   <= (1 # 2) + ((1 # 9007199254740992) * (Qabs s + (1 # 2)) + eta))%Q →
  (Qabs (vp - t * (1 # 100))
   <= (1 # 9007199254740992) * Qabs (t * (1 # 100)) + eta)%Q →
  (Qabs (y - vp * (1 # 100))
   <= (1 # 20000) + (1 # 1125899906842624) * (Qabs y + 1))%Q.
Proof.
  intros Heta Hsmall H1 H2 H3 H4 H5.
  apply Qabs_Qle_condition in H1, H2, H3, H4, H5.
  apply Qabs_Qle_condition.
  split_abs y; split_abs (q * 100)%Q; split_abs (p * 100)%Q; split_abs s;
    split_abs (t * (1 # 100))%Q; lra.
Qed.

Lemma fdiv_finite_inv (x : f64) sy my ey :
  is_finite (fdiv x (S754_finite sy my ey)) = true → is_finite x = true.
Proof. by destruct x. Qed.

Lemma fmul_finite_inv (x : f64) sy my ey :
  is_finite (fmul x (S754_finite sy my ey)) = true → is_finite x = true.
Proof. by destruct x. Qed.

Lemma of_Z_100 : of_Z 100 = S754_finite false 7036874417766400 (-46).
Proof. reflexivity. Qed.

Lemma F2Q_100 : (F2Q (S754_finite false 7036874417766400 (-46)) == 100)%Q.
Proof. reflexivity. Qed.

Lemma rnd_err_unfold v :
  (rnd_err v == (1 # 9007199254740992) * v + pow2 (-1075))%Q.
Proof. reflexivity. Qed.

Lemma eta_small : (pow2 (-1075) <= 1 # 1000000000000000000000000)%Q.
Proof.
  apply Qle_trans with (pow2 (-80)); [apply pow2_le; lia|].
  vm_compute. discriminate.
Qed.

(** The amount rebuilt from a percentage is within [budget / 20000], up to
    floating-point error, of the amount the percentage was computed from. *)
Lemma pct_of_roundtrip (va budget : f64) :
  is_finite budget = true →
  flt pzero budget = true →
  is_finite (pct_of va budget) = true →
  (Qabs (F2Q va - F2Q budget * (F2Q (pct_of va budget) / 100))
   <= F2Q budget * (1 # 20000)
      + (1 # 1125899906842624) * (Qabs (F2Q va) + F2Q budget))%Q.
Proof.
  intros Hb Hpos.
  destruct budget as [sb|sb| |sb mb eb]; try discriminate Hb;
    destruct sb; try discriminate Hpos.
  unfold pct_of, np_round. change (of_Z (10 ^ 2)) with (of_Z 100).
  rewrite of_Z_100.
  set (b := S754_finite false mb eb).
  set (h := S754_finite false 7036874417766400 (-46)).
  set (q := fdiv va b). set (p := fmul q h). set (s := fmul p h).
  set (t := rint s). intros Hvp.
  pose proof (fdiv_finite_inv _ _ _ _ Hvp) as Ht.
  destruct (rint_error s Ht) as [Hs E4]. fold t in E4.
  pose proof (fmul_finite_inv _ _ _ _ Hs) as Hp.
  pose proof (fmul_finite_inv _ _ _ _ Hp) as Hq.
  pose proof (fdiv_finite_inv _ _ _ _ Hq) as Hva.
  pose proof (fdiv_error va false mb eb Hva Hq) as E1.
  pose proof (fmul_error q h Hq eq_refl Hp) as E2.
  pose proof (fmul_error p h Hp eq_refl Hs) as E3.
  pose proof (fdiv_error t false _ _ Ht Hvp) as E5.
  fold b q in E1. fold p in E2. fold s in E3. fold h in E5.
  set (vp := fdiv t h) in *.
  assert (HB : (0 < F2Q b)%Q).
  { unfold b. rewrite F2Q_finite. cbn [Qsign]. apply mag_pos. }
  rewrite !rnd_err_unfold in *.
  unfold h in E2, E3, E5. rewrite !F2Q_100 in *.
  assert (H100 : ∀ z, (z / 100 == z * (1 # 100))%Q) by (intros; field).
  rewrite !H100 in *.
  pose proof (chain_bound (F2Q va / F2Q b) (F2Q q) (F2Q p) (F2Q s) (F2Q t)
                (F2Q vp) (pow2 (-1075)) (pow2_pos _) eta_small
                E1 E2 E3 E4 E5) as Hchain.
  assert (Hgap : (Qabs (F2Q va - F2Q b * (F2Q vp * (1 # 100)))
                  == F2Q b * Qabs (F2Q va / F2Q b - F2Q vp * (1 # 100)))%Q).
  { rewrite <- (Qabs_pos (F2Q b)) at 2 by lra.
    rewrite <- Qabs_Qmult. apply Qabs_wd. field. lra. }
  assert (Hy : (F2Q b * Qabs (F2Q va / F2Q b) == Qabs (F2Q va))%Q).
  { rewrite <- (Qabs_pos (F2Q b)) at 1 by lra.
    rewrite <- Qabs_Qmult. apply Qabs_wd. field. lra. }
  rewrite Hgap, <- Hy.
  apply Qle_trans with
    (F2Q b * ((1 # 20000)
              + (1 # 1125899906842624) * (Qabs (F2Q va / F2Q b) + 1)))%Q.
  - apply Qmult_le_l; done.
  - apply Qle_lteq. right. ring.
Qed.

(** ** The claims about the percentages *)

(** C5, refuted: for budget 32 and actual 33 the exact percentages are
    3.125 and 103.125, which half-up rounding takes to 3.13 and 103.13; the
    code yields 3.12 and 103.12. *)
Lemma C5_ties_are_not_rounded_half_up :
  run_records init [(of_Z 32, of_Z 33)]
  = (Ok 0%nat,
     Some [ {| budget_variance := of_Z 1;
               variance_pct := of_ratio 312 100;
               spending_rate := of_ratio 10312 100;
               variance_category := "Within Target";
               needs_attention := false |} ])
  ∧ decimal_pct (F2Q (of_Z 33) - F2Q (of_Z 32)) (F2Q (of_Z 32)) = of_ratio 313 100
  ∧ decimal_pct (F2Q (of_Z 33)) (F2Q (of_Z 32)) = of_ratio 10313 100
  ∧ of_ratio 312 100 ≠ of_ratio 313 100
  ∧ of_ratio 10312 100 ≠ of_ratio 10313 100.
Proof.
  split; [apply run_records_evaluate; vm_compute; reflexivity|].
  split; [vm_compute; reflexivity|]. split; [vm_compute; reflexivity|].
  split; vm_compute; discriminate.
Qed.

(** C5 as amended: each percentage is the binary64 quotient times 100,
    scaled by 100, rounded to an integral value with ties to even, and
    divided by 100 (numpy's [round]); the integral value is within 1/2 of
    the scaled binary64 value, and is the even neighbour on a tie. *)
Theorem C5_percentages_round_half_to_even self budget actual r :
  evaluate self budget actual = Ok r →
  (∃ y, variance_pct r = fdiv y (of_Z 100)
        ∧ rounded_half_even
            (fmul (fmul (fdiv (fsub actual budget) budget) (of_Z 100)) (of_Z 100)) y)
  ∧ (∃ y, spending_rate r = fdiv y (of_Z 100)
          ∧ rounded_half_even
              (fmul (fmul (fdiv actual budget) (of_Z 100)) (of_Z 100)) y).
Proof.
  intros Hr. destruct (evaluate_ok_inv _ _ _ _ Hr) as (cat & _ & ->).
  cbn [variance_pct spending_rate]. unfold pct_of, np_round.
  change (of_Z (10 ^ 2)) with (of_Z 100).
  split; eexists; (split; [reflexivity|apply rint_rounded_half_even]).
Qed.

Lemma C5_witness :
  (∃ y, of_ratio 312 100 = fdiv y (of_Z 100)
        ∧ rounded_half_even
            (fmul (fmul (fdiv (fsub (of_Z 33) (of_Z 32)) (of_Z 32)) (of_Z 100))
               (of_Z 100)) y)
  ∧ (∃ y, of_ratio 10312 100 = fdiv y (of_Z 100)
          ∧ rounded_half_even
              (fmul (fmul (fdiv (of_Z 33) (of_Z 32)) (of_Z 100)) (of_Z 100)) y).
Proof.
  apply (C5_percentages_round_half_to_even init (of_Z 32) (of_Z 33)
           {| budget_variance := of_Z 1;
              variance_pct := of_ratio 312 100;
              spending_rate := of_ratio 10312 100;
              variance_category := "Within Target";
              needs_attention := false |}).
  vm_compute. reflexivity.
Defined.

(** C6, refuted: for budget 37500 and actual 37501 the variance is 1 and
    [variance_pct] rounds to 0.0, so [budget * (variance_pct / 100)] is 0:
    the two differ by 1, a hundred times the stated tolerance. *)
Lemma C6_roundtrip_gap_exceeds_one_cent :
  run_records init [(of_Z 37500, of_Z 37501)]
  = (Ok 0%nat,
     Some [ {| budget_variance := of_Z 1;
               variance_pct := pzero;
               spending_rate := of_Z 100;
               variance_category := "Within Target";
               needs_attention := false |} ])
  ∧ (roundtrip_gap (of_Z 37500)
       {| budget_variance := of_Z 1;
          variance_pct := pzero;
          spending_rate := of_Z 100;
          variance_category := "Within Target";
          needs_attention := false |} == 1)%Q
  ∧ ¬ (roundtrip_gap (of_Z 37500)
         {| budget_variance := of_Z 1;
            variance_pct := pzero;
            spending_rate := of_Z 100;
            variance_category := "Within Target";
            needs_attention := false |} <= 1 # 100)%Q.
Proof.
  split; [apply run_records_evaluate; vm_compute; reflexivity|].
  split; [vm_compute; reflexivity|]. vm_compute. intros H. apply H. reflexivity.
Qed.

(** C6 as amended: for a record with a finite positive budget whose
    computed [variance_pct] is finite, [budget_variance] and
    [budget * (variance_pct / 100)], taken in exact arithmetic on the
    binary64 values, differ by at most [budget / 20000] (half a unit of the
    second decimal of the percentage, scaled by the budget) plus a
    floating-point term [2^-50 * (|budget_variance| + budget)]. *)
Theorem C6_roundtrip_gap_scales_with_budget self budget actual r :
  is_finite budget = true →
  flt pzero budget = true →
  evaluate self budget actual = Ok r →
  is_finite (variance_pct r) = true →
  (roundtrip_gap budget r
   <= F2Q budget * (1 # 20000)
      + (1 # 1125899906842624) * (Qabs (F2Q (budget_variance r)) + F2Q budget))%Q.
Proof.
  intros Hb Hpos Hr Hfin.
  destruct (evaluate_ok_inv _ _ _ _ Hr) as (cat & _ & ->).
  cbn [variance_pct budget_variance] in *. unfold roundtrip_gap.
  cbn [variance_pct budget_variance].
  by apply pct_of_roundtrip.
Qed.

Lemma C6_witness :
  (roundtrip_gap (of_Z 37500)
     {| budget_variance := of_Z 1;
        variance_pct := pzero;
        spending_rate := of_Z 100;
        variance_category := "Within Target";
        needs_attention := false |}
   <= F2Q (of_Z 37500) * (1 # 20000)
      + (1 # 1125899906842624) * (Qabs (F2Q (of_Z 1)) + F2Q (of_Z 37500)))%Q.
Proof.
  apply (C6_roundtrip_gap_scales_with_budget init (of_Z 37500) (of_Z 37501)
           {| budget_variance := of_Z 1;
              variance_pct := pzero;
              spending_rate := of_Z 100;
              variance_category := "Within Target";
              needs_attention := false |}).
  - reflexivity.
  - reflexivity.
  - vm_compute. reflexivity.
  - reflexivity.
Defined.

(** ** Errors and edge cases of a run *)

(** X1.  [calculate_variances] reads 'actual_spending' first and
    'monthly_budget' second: on a frame without the first it raises
    [KeyError 'actual_spending'], on a frame with the first but without the
    second [KeyError 'monthly_budget'], and in both cases nothing has been
    written to any frame. *)
Theorem missing_input_column_raises_key_error self df st :
  (st df !! "actual_spending" = None →
   calculate_variances self df st = (st, Raise (KeyError "actual_spending")))
  ∧ (∀ c, st df !! "actual_spending" = Some c →
          st df !! "monthly_budget" = None →
          calculate_variances self df st = (st, Raise (KeyError "monthly_budget"))).
Proof.
  split.
  - intros Ha. unfold calculate_variances. by rewrite bind_getitem_missing.
  - intros c Ha Hb. unfold calculate_variances.
    erewrite bind_getitem by eassumption. by rewrite bind_getitem_missing.
Qed.

Lemma missing_input_column_witness :
  calculate_variances init 0%nat (store_of ∅)
  = (store_of ∅, Raise (KeyError "actual_spending")).
Proof.
  apply (proj1 (missing_input_column_raises_key_error init 0%nat (store_of ∅))).
  reflexivity.
Defined.

(** X2.  On a frame whose two input columns are empty the run succeeds
    for every analyzer, whatever its thresholds dictionary holds:
    [categorize_variance] is never called, so no threshold is looked up.
    The frame gets its five columns, all of them empty. *)
Theorem empty_frame_needs_no_thresholds self df st :
  st df !! "actual_spending" = Some (FloatCol []) →
  st df !! "monthly_budget" = Some (FloatCol []) →
  ∃ st',
    calculate_variances self df st = (st', Ok df)
    ∧ st' df !! "budget_variance" = Some (FloatCol [])
    ∧ st' df !! "variance_pct" = Some (FloatCol [])
    ∧ st' df !! "spending_rate" = Some (FloatCol [])
    ∧ is_Some (st' df !! "variance_category")
    ∧ st' df !! "needs attention" = Some (BoolCol []).
Proof.
  intros Ha Hb.
  destruct (calculate_variances_run self df st _ _ [] [] [] [] Ha Hb)
    as (st' & Hrun & Hst' & _); try reflexivity.
  exists st'. split; [done|]. rewrite Hst'.
  repeat split;
    repeat first [ rewrite lookup_insert_eq
                 | rewrite lookup_insert_ne by discriminate ]; eauto.
Qed.

Lemma empty_frame_witness :
  ∃ st',
    calculate_variances {| variance_thresholds := ∅; cost_centers := ∅ |} 0%nat
      (store_of (frame_of_records [])) = (st', Ok 0%nat)
    ∧ st' 0%nat !! "budget_variance" = Some (FloatCol [])
    ∧ st' 0%nat !! "variance_pct" = Some (FloatCol [])
    ∧ st' 0%nat !! "spending_rate" = Some (FloatCol [])
    ∧ is_Some (st' 0%nat !! "variance_category")
    ∧ st' 0%nat !! "needs attention" = Some (BoolCol []).
Proof.
  apply (empty_frame_needs_no_thresholds
           {| variance_thresholds := ∅; cost_centers := ∅ |} 0%nat
           (store_of (frame_of_records []))); reflexivity.
Defined.

(** A run whose classification raises: the three numeric columns were
    assigned before, and stay. *)
Lemma calculate_variances_run_raise self df st actual budget e :
  st df !! "actual_spending" = Some (FloatCol actual) →
  st df !! "monthly_budget" = Some (FloatCol budget) →
  series_apply (categorize_variance self)
    (pct_col (zip_with fsub actual budget) budget) = Raise e →
  ∃ st', calculate_variances self df st = (st', Raise e)
         ∧ st' df =
             <["spending_rate" := FloatCol (pct_col actual budget)]>
               (<["variance_pct" :=
                    FloatCol (pct_col (zip_with fsub actual budget) budget)]>
                  (<["budget_variance" := FloatCol (zip_with fsub actual budget)]>
                     (st df)))
         ∧ ∀ l, l ≠ df → st' l = st l.
Proof.
  intros Ha Hb Hc.
  unfold calculate_variances.
  do 2 run_step. cbn [col_sub as_float mbind result_bind].
  do 4 run_step. unfold col_div. cbn [as_float mbind result_bind].
  do 4 run_step. cbn [as_float mbind result_bind].
  do 3 run_step. cbn [as_float]. run_step.
  fold (pct_col (zip_with fsub actual budget) budget). rewrite Hc.
  rewrite bind_lift_raise.
  eexists. split; [reflexivity|]. split.
  - rewrite !store_update_eq. reflexivity.
  - intros l Hl. rewrite !store_update_ne by done. reflexivity.
Qed.

(** X3.  When the thresholds dictionary has no 'significantly_over' entry
    and the frame has at least one row, the run raises
    [KeyError 'significantly_over'], and it does so after the three numeric
    columns were assigned: the frame keeps 'budget_variance', 'variance_pct'
    and 'spending_rate', while 'variance_category' and 'needs attention'
    are as they were. *)
Theorem missing_threshold_raises_after_partial_write
    self df st (a b : f64) (actual budget : list f64) :
  st df !! "actual_spending" = Some (FloatCol (a :: actual)) →
  st df !! "monthly_budget" = Some (FloatCol (b :: budget)) →
  variance_thresholds self !! "significantly_over" = None →
  ∃ st',
    calculate_variances self df st = (st', Raise (KeyError "significantly_over"))
    ∧ st' df !! "budget_variance"
      = Some (FloatCol (zip_with fsub (a :: actual) (b :: budget)))
    ∧ is_Some (st' df !! "variance_pct")
    ∧ is_Some (st' df !! "spending_rate")
    ∧ st' df !! "variance_category" = st df !! "variance_category"
    ∧ st' df !! "needs attention" = st df !! "needs attention".
Proof.
  intros Ha Hb Hth.
  destruct (calculate_variances_run_raise self df st _ _
              (KeyError "significantly_over") Ha Hb)
    as (st' & Hrun & Hst' & _).
  { cbn [zip_with]. rewrite pct_col_cons. cbn [series_apply].
    unfold categorize_variance, threshold. rewrite Hth. reflexivity. }
  exists st'. split; [done|]. rewrite Hst'.
  repeat split;
    repeat first [ rewrite lookup_insert_eq
                 | rewrite lookup_insert_ne by discriminate ]; eauto.
Qed.

Lemma missing_threshold_witness :
  ∃ st',
    calculate_variances {| variance_thresholds := ∅; cost_centers := ∅ |} 0%nat
      (store_of (frame_of_records [(of_Z 10000, of_Z 11200)]))
    = (st', Raise (KeyError "significantly_over"))
    ∧ st' 0%nat !! "budget_variance"
      = Some (FloatCol (zip_with fsub [of_Z 11200] [of_Z 10000]))
    ∧ is_Some (st' 0%nat !! "variance_pct")
    ∧ is_Some (st' 0%nat !! "spending_rate")
    ∧ st' 0%nat !! "variance_category"
      = store_of (frame_of_records [(of_Z 10000, of_Z 11200)]) 0%nat
          !! "variance_category"
    ∧ st' 0%nat !! "needs attention"
      = store_of (frame_of_records [(of_Z 10000, of_Z 11200)]) 0%nat
          !! "needs attention".
Proof.
  apply (missing_threshold_raises_after_partial_write
           {| variance_thresholds := ∅; cost_centers := ∅ |} 0%nat
           (store_of (frame_of_records [(of_Z 10000, of_Z 11200)]))
           (of_Z 11200) (of_Z 10000) [] []); reflexivity.
Defined.

Lemma insert_written_twice (f : gmap string column) c1 c2 c3 c4 c5 :
  let w (g : gmap string column) :=
    <["needs attention" := c5]>
      (<["variance_category" := c4]>
         (<["spending_rate" := c3]>
            (<["variance_pct" := c2]> (<["budget_variance" := c1]> g)))) in
  w (w f) = w f.
Proof.
  cbn zeta. apply map_eq. intros k.
  destruct (decide (k = "needs attention")) as [->|];
    [by rewrite !lookup_insert_eq|rewrite !(lookup_insert_ne _ "needs attention") by done].
  destruct (decide (k = "variance_category")) as [->|];
    [by rewrite !lookup_insert_eq|rewrite !(lookup_insert_ne _ "variance_category") by done].
  destruct (decide (k = "spending_rate")) as [->|];
    [by rewrite !lookup_insert_eq|rewrite !(lookup_insert_ne _ "spending_rate") by done].
  destruct (decide (k = "variance_pct")) as [->|];
    [by rewrite !lookup_insert_eq|rewrite !(lookup_insert_ne _ "variance_pct") by done].
  destruct (decide (k = "budget_variance")) as [->|];
    [by rewrite !lookup_insert_eq|rewrite !(lookup_insert_ne _ "budget_variance") by done].
  repeat (first [rewrite (lookup_insert_ne _ "needs attention") by done
                |rewrite (lookup_insert_ne _ "variance_category") by done
                |rewrite (lookup_insert_ne _ "spending_rate") by done
                |rewrite (lookup_insert_ne _ "variance_pct") by done
                |rewrite (lookup_insert_ne _ "budget_variance") by done]).
  reflexivity.
Qed.

(** X4.  Running [calculate_variances] again on the frame a successful run
    left succeeds too and changes nothing: the five columns are recomputed
    from the two input columns, which a run never writes. *)
Theorem calculate_variances_twice_is_once self df st (actual budget : list f64) l st1 :
  st df !! "actual_spending" = Some (FloatCol actual) →
  st df !! "monthly_budget" = Some (FloatCol budget) →
  calculate_variances self df st = (st1, Ok l) →
  ∃ st2, calculate_variances self df st1 = (st2, Ok df)
         ∧ ∀ l', st2 l' = st1 l'.
Proof.
  intros Ha Hb Hrun.
  destruct (calculate_variances_ok_inv _ _ _ _ _ Hrun)
    as (ca & cb & actual' & budget' & bv & cats & Ha' & Hb' & Hv & Hfa & Hfb & Hc).
  rewrite Ha in Ha'. rewrite Hb in Hb'.
  injection Ha' as <-. injection Hb' as <-.
  cbn in Hv, Hfa, Hfb. injection Hv as <-. injection Hfa as <-. injection Hfb as <-.
  destruct (calculate_variances_run self df st _ _ _ _ _ _ Ha Hb eq_refl
              eq_refl eq_refl Hc) as (st1' & Hrun1 & Hst1 & Hother1).
  assert (st1' = st1) as -> by congruence.
  assert (Ha1 : st1 df !! "actual_spending" = Some (FloatCol actual)).
  { rewrite Hst1. by repeat (rewrite lookup_insert_ne by discriminate). }
  assert (Hb1 : st1 df !! "monthly_budget" = Some (FloatCol budget)).
  { rewrite Hst1. by repeat (rewrite lookup_insert_ne by discriminate). }
  destruct (calculate_variances_run self df st1 _ _ _ _ _ _ Ha1 Hb1 eq_refl
              eq_refl eq_refl Hc) as (st2 & Hrun2 & Hst2 & Hother2).
  exists st2. split; [done|]. intros l'.
  destruct (decide (l' = df)) as [->|Hne]; [|by apply Hother2].
  rewrite Hst2, Hst1. apply insert_written_twice.
Qed.

Lemma calculate_variances_twice_witness :
  ∃ st2,
    calculate_variances init 0%nat
      (calculate_variances init 0%nat
         (store_of (frame_of_records [(of_Z 10000, of_Z 11200)]))).1
    = (st2, Ok 0%nat)
    ∧ ∀ l', st2 l'
            = (calculate_variances init 0%nat
                 (store_of (frame_of_records [(of_Z 10000, of_Z 11200)]))).1 l'.
Proof.
  apply (calculate_variances_twice_is_once init 0%nat
           (store_of (frame_of_records [(of_Z 10000, of_Z 11200)]))
           [of_Z 11200] [of_Z 10000] 0%nat).
  - reflexivity.
  - reflexivity.
  - apply pair_with_snd. vm_compute. reflexivity.
Defined.

(** ** The classification as a partition *)

Lemma SFcompare_Lt_Eq_trans (x y z : f64) :
  SFcompare x y = Some Lt → SFcompare y z = Some Eq → SFcompare x z = Some Lt.
Proof.
  destruct x as [sx|sx| |sx mx ex], y as [sy|sy| |sy my ey],
           z as [sz|sz| |sz mz ez];
    try destruct sx; try destruct sy; try destruct sz; simpl; try done.
  all: change (Pos.compare_cont Eq) with Pos.compare.
  all: destruct (Z.compare_spec ex ey), (Z.compare_spec ey ez),
         (Z.compare_spec ex ez); try done; try lia.
  all: destruct (Pos.compare_spec mx my), (Pos.compare_spec my mz),
         (Pos.compare_spec mx mz); simpl; try done; try lia.
Qed.

Lemma SFcompare_Eq_Lt_trans (x y z : f64) :
  SFcompare x y = Some Eq → SFcompare y z = Some Lt → SFcompare x z = Some Lt.
Proof.
  destruct x as [sx|sx| |sx mx ex], y as [sy|sy| |sy my ey],
           z as [sz|sz| |sz mz ez];
    try destruct sx; try destruct sy; try destruct sz; simpl; try done.
  all: change (Pos.compare_cont Eq) with Pos.compare.
  all: destruct (Z.compare_spec ex ey), (Z.compare_spec ey ez),
         (Z.compare_spec ex ez); try done; try lia.
  all: destruct (Pos.compare_spec mx my), (Pos.compare_spec my mz),
         (Pos.compare_spec mx mz); simpl; try done; try lia.
Qed.

Lemma fle_flt_trans (x y z : f64) :
  fle x y = true → flt y z = true → flt x z = true.
Proof.
  unfold fle, flt, SFleb, SFltb. intros Hxy Hyz.
  destruct (SFcompare x y) as [[]|] eqn:Exy; try done;
    destruct (SFcompare y z) as [[]|] eqn:Eyz; try done.
  - by rewrite (SFcompare_Eq_Lt_trans x y z).
  - by rewrite (SFcompare_Lt_trans x y z).
Qed.

Lemma flt_fle_trans (x y z : f64) :
  flt x y = true → fle y z = true → flt x z = true.
Proof.
  unfold fle, flt, SFleb, SFltb. intros Hxy Hyz.
  destruct (SFcompare x y) as [[]|] eqn:Exy; try done;
    destruct (SFcompare y z) as [[]|] eqn:Eyz; try done.
  - by rewrite (SFcompare_Lt_Eq_trans x y z).
  - by rewrite (SFcompare_Lt_trans x y z).
Qed.

Lemma flt_fle (x y : f64) : flt x y = true → fle x y = true.
Proof. unfold fle, flt, SFleb, SFltb. by destruct (SFcompare x y) as [[]|]. Qed.

Lemma SFcompare_not_nan (x y : f64) :
  is_nan x = false → is_nan y = false → is_Some (SFcompare x y).
Proof. destruct x as [| | |], y as [| | |]; simpl; try done; eauto. Qed.

Lemma not_fle_flt (x y : f64) :
  is_nan x = false → is_nan y = false → fle x y = false → flt y x = true.
Proof.
  intros Hx Hy. unfold fle, flt, SFleb, SFltb.
  rewrite (SFcompare_antisym x y).
  destruct (SFcompare_not_nan x y Hx Hy) as [c ->]. by destruct c.
Qed.

Lemma fle_nan_l (y : f64) : fle nan y = false.
Proof. by destruct y. Qed.

Lemma fle_nan_r (x : f64) : fle x nan = false.
Proof. by destruct x. Qed.

(** X5.  A row whose percentage is NaN (budget and variance both zero, for
    one) fails all four comparisons of [categorize_variance]: it is labelled
    'Within Target' and not flagged, whatever the thresholds are. *)
Theorem nan_percentage_is_within_target self budget actual r :
  evaluate self budget actual = Ok r →
  is_nan (variance_pct r) = true →
  variance_category r = "Within Target" ∧ needs_attention r = false.
Proof.
  intros Hr Hnan. destruct (evaluate_ok_inv _ _ _ _ Hr) as (cat & Hcat & ->).
  cbn [variance_pct variance_category needs_attention] in *.
  destruct (pct_of (fsub actual budget) budget); try discriminate Hnan.
  assert (cat = "Within Target") as ->; [|done].
  revert Hcat. unfold categorize_variance, fge.
  destruct (threshold self "significantly_over") as [t1|]; [|done].
  cbn [mbind result_bind]. change S754_nan with nan. rewrite fle_nan_l.
  destruct (threshold self "slightly_over") as [t2|]; [|done].
  cbn [mbind result_bind]. rewrite fle_nan_l.
  destruct (threshold self "significantly_under") as [t3|]; [|done].
  cbn [mbind result_bind]. change (SFleb t3 nan) with (fle t3 nan).
  rewrite fle_nan_r.
  destruct (threshold self "slightly_under") as [t4|]; [|done].
  cbn [mbind result_bind]. change (SFleb t4 nan) with (fle t4 nan).
  rewrite fle_nan_r. by intros [= <-].
Qed.

Lemma nan_percentage_witness :
  variance_category
    {| budget_variance := pzero; variance_pct := nan; spending_rate := nan;
       variance_category := "Within Target"; needs_attention := false |}
  = "Within Target"
  ∧ needs_attention
      {| budget_variance := pzero; variance_pct := nan; spending_rate := nan;
         variance_category := "Within Target"; needs_attention := false |}
    = false.
Proof.
  apply (nan_percentage_is_within_target init pzero pzero); reflexivity.
Defined.

Lemma flt_negb_fle (x y : f64) :
  is_nan x = false → is_nan y = false → flt y x = negb (fle x y).
Proof.
  intros Hx Hy. destruct (fle x y) eqn:H.
  - destruct (flt y x) eqn:H'; [|done]. apply flt_not_fle in H'. congruence.
  - by apply not_fle_flt.
Qed.

(** X6.  With four thresholds in strict order, the [if]/[elif] chain of
    [categorize_variance] cuts the non-NaN percentages into five disjoint
    intervals, and the label tells which: at most [so], in ([so], [sl]],
    strictly between [sl] and [slu], in [[slu], [su]), at least [su]. *)
Theorem ordered_thresholds_partition self (so sl slu su x : f64) label :
  has_thresholds self so sl slu su →
  strictly_ordered so sl slu su →
  is_nan x = false →
  categorize_variance self x = Ok label →
  (label = "Significantly Overrun" ↔ fle x so = true)
  ∧ (label = "Slighty Overrun" ↔ flt so x = true ∧ fle x sl = true)
  ∧ (label = "Within Target" ↔ flt sl x = true ∧ flt x slu = true)
  ∧ (label = "Slightly Underspending" ↔ fle slu x = true ∧ flt x su = true)
  ∧ (label = "Significantly Underspending" ↔ fle su x = true).
Proof.
  intros Hth (H12 & H23 & H34) Hx.
  rewrite (categorize_variance_thresholds _ _ _ _ _ _ Hth).
  change fge with (fun a b => fle b a). cbv beta.
  destruct (flt_not_nan _ _ H12) as [N1 N2].
  destruct (flt_not_nan _ _ H34) as [N3 N4].
  (* what the ordering excludes *)
  assert (O1 : fle x so = true → fle x sl = true).
  { intros H. apply flt_fle. by apply fle_flt_trans with so. }
  assert (O2 : fle x sl = true → fle slu x = false).
  { intros H. apply flt_not_fle. by apply fle_flt_trans with sl. }
  assert (O3 : fle su x = true → fle slu x = true).
  { intros H. apply flt_fle. by apply flt_fle_trans with su. }
  (* the strict tests are the negations of the code's tests *)
  rewrite (flt_negb_fle x so), (flt_negb_fle x sl), (flt_negb_fle slu x),
    (flt_negb_fle su x) by done.
  destruct (fle x so), (fle x sl), (fle su x), (fle slu x);
    try (specialize (O1 eq_refl); discriminate O1);
    try (specialize (O2 eq_refl); discriminate O2);
    try (specialize (O3 eq_refl); discriminate O3);
    intros [= <-]; cbn [negb]; repeat split; try done; intros [? ?]; done.
Qed.

Lemma ordered_thresholds_partition_witness :
  ("Within Target" = "Significantly Overrun" ↔ fle (of_Z 12) (of_Z (-10)) = true)
  ∧ ("Within Target" = "Slighty Overrun"
     ↔ flt (of_Z (-10)) (of_Z 12) = true ∧ fle (of_Z 12) (of_Z (-5)) = true)
  ∧ ("Within Target" = "Within Target"
     ↔ flt (of_Z (-5)) (of_Z 12) = true ∧ flt (of_Z 12) (of_Z 15) = true)
  ∧ ("Within Target" = "Slightly Underspending"
     ↔ fle (of_Z 15) (of_Z 12) = true ∧ flt (of_Z 12) (of_Z 25) = true)
  ∧ ("Within Target" = "Significantly Underspending"
     ↔ fle (of_Z 25) (of_Z 12) = true).
Proof.
  apply (ordered_thresholds_partition init (of_Z (-10)) (of_Z (-5)) (of_Z 15)
           (of_Z 25) (of_Z 12) "Within Target").
  - by vm_compute.
  - by vm_compute.
  - reflexivity.
  - vm_compute. reflexivity.
Defined.

(** ** Signs through the computation *)

Lemma binary_round_aux_signed (sx : bool) (m0 ex : Z) (l0 : location) (X : Q) :
  0 <= m0 →
  inbetween m0 l0 X →
  l0 = loc_Exact ∨ ex <= fexp64 (Zdigits2 m0 + ex) →
  signed sx (binary_round_aux prec emax sx m0 ex l0).
Proof.
  intros Hm Hin Hal. unfold binary_round_aux.
  destruct (shr_fexp_spec m0 ex l0 X Hm Hin Hal) as (Hm1 & Hin1 & Hal1).
  destruct (shr_fexp prec emax m0 ex l0) as [mrs1 e1]. cbn [fst snd] in *.
  destruct (round_renormalize_spec _ _ _ _ Hm1 Hin1 Hal1) as (Hm2 & _ & _).
  destruct (shr_fexp prec emax _ e1 loc_Exact) as [mrs2 e2]. cbn [fst snd] in *.
  destruct (shr_m mrs2) as [|m|m]; [done| |lia].
  by destruct (e2 <=? emax - prec).
Qed.

Lemma binary_round_signed (s : bool) (mx : positive) (ex : Z) :
  signed s (binary_round prec emax s mx ex).
Proof.
  unfold binary_round. destruct (shl_align mx ex _) as [mz ez].
  apply binary_round_aux_signed with (X := inject_Z (Z.pos mz));
    [lia|simpl; reflexivity|by left].
Qed.

Lemma fmul_signed (s : bool) (x : f64) (m : positive) (e : Z) :
  signed s x → signed s (fmul x (S754_finite false m e)).
Proof.
  destruct x as [sx|sx| |sx mx ex]; cbn [signed fmul SFmul]; try done.
  - intros <-. apply xorb_false_r.
  - intros <-. unfold fmul, SFmul. rewrite xorb_false_r.
    apply binary_round_aux_signed with (X := inject_Z (Z.pos (mx * m)));
      [lia|simpl; reflexivity|by left].
Qed.

Lemma fdiv_signed (s : bool) (x : f64) (m : positive) (e : Z) :
  signed s x → signed s (fdiv x (S754_finite false m e)).
Proof.
  destruct x as [sx|sx| |sx mx ex]; cbn [signed fdiv SFdiv]; try done.
  - intros <-. apply xorb_false_r.
  - intros <-. unfold fdiv, SFdiv. rewrite xorb_false_r.
    destruct (SFdiv_core_binary_spec mx m ex e) as (X & Hq & Hin & Hal & _).
    destruct (SFdiv_core_binary prec emax (Z.pos mx) ex (Z.pos m) e) as [[q ez] lz].
    cbn [fst snd] in *.
    by apply binary_round_aux_signed with (X := X); [| |right].
Qed.

Lemma rne_div_nonneg (m d : Z) : 0 <= m → 0 < d → 0 <= rne_div m d.
Proof.
  intros Hm Hd. unfold rne_div.
  pose proof (Z.div_pos m d Hm Hd).
  destruct (2 * (m mod d) ?= d); [destruct (Z.even (m / d))| |]; lia.
Qed.

Lemma of_int_signed (s : bool) (n : Z) :
  0 <= n → signed s (of_int s (cond_Zopp s n)).
Proof.
  intros Hn. unfold of_int, binary_normalize.
  destruct s; cbn [cond_Zopp]; destruct n as [|p|p]; try lia; simpl Z.opp;
    try done; apply binary_round_signed.
Qed.

Lemma rint_signed (s : bool) (x : f64) : signed s x → signed s (rint x).
Proof.
  destruct x as [sx|sx| |sx m [|p|p]]; cbn [signed rint]; try done.
  intros <-. apply of_int_signed. apply rne_div_nonneg; [lia|].
  apply Z.pow_pos_nonneg; lia.
Qed.

Lemma pct_of_signed (s : bool) (num : f64) (m : positive) (e : Z) :
  signed s num → signed s (pct_of num (S754_finite false m e)).
Proof.
  intros H. unfold pct_of, np_round. change (of_Z (10 ^ 2)) with (of_Z 100).
  rewrite of_Z_100.
  by apply fdiv_signed, rint_signed, fmul_signed, fmul_signed, fdiv_signed.
Qed.

Lemma shl_align_snd (mx : positive) (ex ez : Z) :
  ez <= ex → (shl_align mx ex ez).2 = ez.
Proof.
  intros H. unfold shl_align. destruct (ez - ex) as [|d|d] eqn:Hd; cbn [snd]; lia.
Qed.

Lemma aligned_mantissa_le (ma mb : positive) (ea eb ez : Z) :
  ez <= ea → ez <= eb →
  (inject_Z (Z.pos ma) * pow2 ea <= inject_Z (Z.pos mb) * pow2 eb)%Q →
  Z.pos (shl_align ma ea ez).1 <= Z.pos (shl_align mb eb ez).1.
Proof.
  intros Ha Hb Hle.
  pose proof (shl_align_spec ma ea ez) as Va. rewrite shl_align_snd in Va by done.
  pose proof (shl_align_spec mb eb ez) as Vb. rewrite shl_align_snd in Vb by done.
  rewrite <- Va, <- Vb in Hle.
  apply Qmult_le_r in Hle; [|apply pow2_pos]. by rewrite <- Zle_Qle in Hle.
Qed.

Lemma fsub_signed (a : f64) (mb : positive) (eb : Z) :
  is_finite a = true →
  ((F2Q (S754_finite false mb eb) <= F2Q a)%Q →
   signed false (fsub a (S754_finite false mb eb)))
  ∧ ((F2Q a <= F2Q (S754_finite false mb eb))%Q →
     signed true (fsub a (S754_finite false mb eb))).
Proof.
  intros Ha. pose proof (mag_pos mb eb) as Hb.
  rewrite !F2Q_finite. cbn [Qsign].
  destruct a as [sa|sa| |sa ma ea]; try discriminate Ha.
  { cbn [F2Q fsub SFsub signed negb]. split; [lra|done]. }
  rewrite F2Q_finite. pose proof (mag_pos ma ea) as Hma.
  unfold fsub, SFsub.
  set (ez := Z.min ea eb).
  pose proof (aligned_mantissa_le ma mb ea eb ez ltac:(lia) ltac:(lia)) as Hab.
  pose proof (aligned_mantissa_le mb ma eb ea ez ltac:(lia) ltac:(lia)) as Hba.
  unfold binary_normalize.
  destruct sa; cbn [Qsign cond_Zopp]; split; intros Hle; try lra.
  - (* negative minus positive *)
    simpl. apply binary_round_signed.
  - specialize (Hba Hle).
    destruct (Z.pos (shl_align ma ea ez).1 - Z.pos (shl_align mb eb ez).1)
      as [|d|d] eqn:Hd; [done|apply binary_round_signed|lia].
  - specialize (Hab Hle).
    destruct (Z.pos (shl_align ma ea ez).1 - Z.pos (shl_align mb eb ez).1)
      as [|d|d] eqn:Hd; [done|lia|apply binary_round_signed].
Qed.

Lemma fle_signed_negative (x : f64) (m : positive) (e : Z) :
  signed false x → fle x (S754_finite true m e) = false.
Proof. destruct x as [sx|sx| |sx mx ex]; simpl; try done; by intros ->. Qed.

Lemma fge_signed_positive (x : f64) (m : positive) (e : Z) :
  signed true x → fge x (S754_finite false m e) = false.
Proof. destruct x as [sx|sx| |sx mx ex]; simpl; try done; by intros ->. Qed.

(** X7.  On float64 columns, with the thresholds of [__init__], a positive
    finite budget and a finite actual amount, spending at or above the
    budget is never labelled as an overrun, and spending at or below the
    budget is never labelled as underspending: the 'over' thresholds are
    negative and the 'under' thresholds positive, while the percentage has
    the sign of actual minus budget through the binary64 subtraction,
    division, scaling and rounding. *)
Theorem labels_follow_the_sign_of_actual_minus_budget budget actual r :
  is_finite budget = true →
  flt pzero budget = true →
  is_finite actual = true →
  evaluate init budget actual = Ok r →
  ((F2Q budget <= F2Q actual)%Q →
   variance_category r ≠ "Significantly Overrun"
   ∧ variance_category r ≠ "Slighty Overrun")
  ∧ ((F2Q actual <= F2Q budget)%Q →
     variance_category r ≠ "Significantly Underspending"
     ∧ variance_category r ≠ "Slightly Underspending").
Proof.
  intros Hb Hpos Ha Hr.
  destruct budget as [sb|sb| |sb mb eb]; try discriminate Hb;
    destruct sb; try discriminate Hpos.
  destruct (evaluate_ok_inv _ _ _ _ Hr) as (cat & Hcat & ->).
  cbn [variance_category].
  rewrite (categorize_variance_thresholds _ _ _ _ _ _ init_thresholds) in Hcat.
  destruct (fsub_signed actual mb eb Ha) as [Hover Hunder].
  split; intros Hle.
  - pose proof (pct_of_signed false _ mb eb (Hover Hle)) as Hs.
    change (of_Z (-10)) with (S754_finite true 5629499534213120 (-49)) in Hcat.
    change (of_Z (-5)) with (S754_finite true 5629499534213120 (-50)) in Hcat.
    rewrite !(fle_signed_negative _ _ _ Hs) in Hcat.
    injection Hcat as <-.
    destruct (fge _ _); [done|]. by destruct (fge _ _).
  - pose proof (pct_of_signed true _ mb eb (Hunder Hle)) as Hs.
    change (of_Z 25) with (S754_finite false 7036874417766400 (-48)) in Hcat.
    change (of_Z 15) with (S754_finite false 8444249301319680 (-49)) in Hcat.
    rewrite !(fge_signed_positive _ _ _ Hs) in Hcat.
    injection Hcat as <-.
    destruct (fle _ _); [done|]. by destruct (fle _ _).
Qed.

Lemma labels_follow_the_sign_witness :
  ((F2Q (of_Z 10000) <= F2Q (of_Z 11200))%Q →
   "Within Target" ≠ "Significantly Overrun"
   ∧ "Within Target" ≠ "Slighty Overrun")
  ∧ ((F2Q (of_Z 11200) <= F2Q (of_Z 10000))%Q →
     "Within Target" ≠ "Significantly Underspending"
     ∧ "Within Target" ≠ "Slightly Underspending").
Proof.
  apply (labels_follow_the_sign_of_actual_minus_budget (of_Z 10000) (of_Z 11200)
           {| budget_variance := of_Z 1200;
              variance_pct := of_Z 12;
              spending_rate := of_Z 112;
              variance_category := "Within Target";
              needs_attention := false |}).
  - reflexivity.
  - reflexivity.
  - reflexivity.
  - vm_compute. reflexivity.
Defined.

(** ** Accuracy of the percentages *)

(** A finite percentage is within half a hundredth, up to floating-point
    error, of a hundred times the exact quotient of the two binary64
    values. *)
Lemma pct_of_accuracy (num den : f64) :
  is_finite den = true →
  flt pzero den = true →
  is_finite (pct_of num den) = true →
  (Qabs (F2Q (pct_of num den) - 100 * (F2Q num / F2Q den))
   <= (1 # 200)
      + (100 # 1125899906842624) * (Qabs (F2Q num / F2Q den) + 1))%Q.
Proof.
  intros Hb Hpos.
  destruct den as [sb|sb| |sb mb eb]; try discriminate Hb;
    destruct sb; try discriminate Hpos.
  unfold pct_of, np_round. change (of_Z (10 ^ 2)) with (of_Z 100).
  rewrite of_Z_100.
  set (b := S754_finite false mb eb).
  set (h := S754_finite false 7036874417766400 (-46)).
  set (q := fdiv num b). set (p := fmul q h). set (s := fmul p h).
  set (t := rint s). intros Hvp.
  pose proof (fdiv_finite_inv _ _ _ _ Hvp) as Ht.
  destruct (rint_error s Ht) as [Hs E4]. fold t in E4.
  pose proof (fmul_finite_inv _ _ _ _ Hs) as Hp.
  pose proof (fmul_finite_inv _ _ _ _ Hp) as Hq.
  pose proof (fdiv_finite_inv _ _ _ _ Hq) as Hnum.
  pose proof (fdiv_error num false mb eb Hnum Hq) as E1.
  pose proof (fmul_error q h Hq eq_refl Hp) as E2.
  pose proof (fmul_error p h Hp eq_refl Hs) as E3.
  pose proof (fdiv_error t false _ _ Ht Hvp) as E5.
  fold b q in E1. fold p in E2. fold s in E3. fold h in E5.
  set (vp := fdiv t h) in *.
  rewrite !rnd_err_unfold in *.
  unfold h in E2, E3, E5. rewrite !F2Q_100 in *.
  assert (H100 : ∀ z, (z / 100 == z * (1 # 100))%Q) by (intros; field).
  rewrite !H100 in *.
  pose proof (chain_bound (F2Q num / F2Q b) (F2Q q) (F2Q p) (F2Q s) (F2Q t)
                (F2Q vp) (pow2 (-1075)) (pow2_pos _) eta_small
                E1 E2 E3 E4 E5) as Hchain.
  assert (Hgap : (Qabs (F2Q vp - 100 * (F2Q num / F2Q b))
                  == 100 * Qabs (F2Q num / F2Q b - F2Q vp * (1 # 100)))%Q).
  { rewrite <- (Qabs_pos 100) at 2 by discriminate.
    rewrite <- Qabs_Qmult, <- Qabs_opp. apply Qabs_wd. ring. }
  rewrite Hgap.
  apply Qle_trans with
    (100 * ((1 # 20000)
            + (1 # 1125899906842624) * (Qabs (F2Q num / F2Q b) + 1)))%Q.
  - apply Qmult_le_l; done.
  - apply Qle_lteq. right. ring.
Qed.

(** X8.  For a positive finite budget, each of the two percentages, when
    finite, lies within 0.005 plus a relative 100 * 2^-50 of a hundred
    times the exact quotient of the binary64 values it was computed from:
    'variance_pct' of [budget_variance / budget], 'spending_rate' of
    [actual / budget]. *)
Theorem percentages_are_accurate_to_half_a_hundredth self budget actual r :
  is_finite budget = true →
  flt pzero budget = true →
  evaluate self budget actual = Ok r →
  (is_finite (variance_pct r) = true →
   (Qabs (F2Q (variance_pct r) - 100 * (F2Q (budget_variance r) / F2Q budget))
    <= (1 # 200)
       + (100 # 1125899906842624)
         * (Qabs (F2Q (budget_variance r) / F2Q budget) + 1))%Q)
  ∧ (is_finite (spending_rate r) = true →
     (Qabs (F2Q (spending_rate r) - 100 * (F2Q actual / F2Q budget))
      <= (1 # 200)
         + (100 # 1125899906842624) * (Qabs (F2Q actual / F2Q budget) + 1))%Q).
Proof.
  intros Hb Hpos Hr.
  destruct (evaluate_ok_inv _ _ _ _ Hr) as (cat & _ & ->).
  cbn [variance_pct spending_rate budget_variance].
  split; intros Hfin; by apply pct_of_accuracy.
Qed.

Lemma percentages_are_accurate_witness :
  (is_finite (of_Z 12) = true →
   (Qabs (F2Q (of_Z 12) - 100 * (F2Q (of_Z 1200) / F2Q (of_Z 10000)))
    <= (1 # 200)
       + (100 # 1125899906842624)
         * (Qabs (F2Q (of_Z 1200) / F2Q (of_Z 10000)) + 1))%Q)
  ∧ (is_finite (of_Z 112) = true →
     (Qabs (F2Q (of_Z 112) - 100 * (F2Q (of_Z 11200) / F2Q (of_Z 10000)))
      <= (1 # 200)
         + (100 # 1125899906842624)
           * (Qabs (F2Q (of_Z 11200) / F2Q (of_Z 10000)) + 1))%Q).
Proof.
  apply (percentages_are_accurate_to_half_a_hundredth init (of_Z 10000) (of_Z 11200)
           {| budget_variance := of_Z 1200;
              variance_pct := of_Z 12;
              spending_rate := of_Z 112;
              variance_category := "Within Target";
              needs_attention := false |}).
  - reflexivity.
  - reflexivity.
  - vm_compute. reflexivity.
Defined.

(** ** The calendar of the sample data *)

(** X9.  The fiscal calendar of [generate_sample_data], for a month number
    from 1 to 12: the quarter label is Q1 for July to September, Q2 for
    October to December, Q3 for January to March and Q4 for April to June;
    the fiscal year is the calendar year plus one from July on; stepping to
    the next month raises the fiscal year exactly after June, and the next
    month is in Q1 exactly after June, July and August. *)
Theorem fiscal_calendar (y m : Z) :
  1 <= m <= 12 →
  quarter_of (y, m)
  = (if 7 <=? m then (if m <=? 9 then "Q1" else "Q2")
     else (if m <=? 3 then "Q3" else "Q4"))
  ∧ fiscal_year_of (y, m) = (if 7 <=? m then y + 1 else y)
  ∧ fiscal_year_of (next_month (y, m))
    = (if m =? 6 then fiscal_year_of (y, m) + 1 else fiscal_year_of (y, m))
  ∧ (quarter_of (next_month (y, m)) = "Q1" ↔ m = 6 ∨ m = 7 ∨ m = 8).
Proof.
  intros Hm.
  assert (Hcases : m = 1 ∨ m = 2 ∨ m = 3 ∨ m = 4 ∨ m = 5 ∨ m = 6 ∨ m = 7
                   ∨ m = 8 ∨ m = 9 ∨ m = 10 ∨ m = 11 ∨ m = 12) by lia.
  unfold fiscal_year_of, next_month; cbn [fst snd].
  repeat destruct Hcases as [->|Hcases]; try subst m; cbn;
    repeat split; try done; try lia; try (intros [|[|]]; lia).
Qed.

Lemma fiscal_calendar_witness :
  quarter_of (2024, 6) = "Q4"
  ∧ fiscal_year_of (2024, 6) = 2024
  ∧ fiscal_year_of (next_month (2024, 6)) = 2025
  ∧ (quarter_of (next_month (2024, 6)) = "Q1" ↔ 6 = 6 ∨ 6 = 7 ∨ 6 = 8).
Proof. apply (fiscal_calendar 2024 6). lia. Defined.



